(** * Verification of photo-dedup: clustering and the report of dedup.py,
    the trash manager and [/save] of the review server (review_server.py). *)

From Stdlib Require Import ZArith Lia Ascii QArith.
From stdpp Require Import base list gmap sets strings pretty sorting.

(* ------------------------------------------------------------------ *)
(** ** dedup.py *)

Module Dedup.

(** An [imagehash.ImageHash] is a flat bit array; [a - b] is
    [np.count_nonzero(a.hash.flatten() != b.hash.flatten())].  All hashes
    of one scan come from [imagehash.phash] and have 64 bits. *)
Definition ImageHash := list bool.

Fixpoint hash_sub (a b : ImageHash) : Z :=
  match a, b with
  | x :: a', y :: b' => (if Bool.eqb x y then 0 else 1) + hash_sub a' b'
  | _, _ => 0
  end%Z.

Section Dedup.
Context {Path : Type} `{EqDecision Path}.

(** [image_hashes] is a Python dict [{Path: ImageHash}]: an association
    list in insertion order whose keys are distinct. *)
Fixpoint dict_get (d : list (Path * ImageHash)) (k : Path) : ImageHash :=
  match d with
  | [] => []
  | (k', v) :: d' => if decide (k = k') then v else dict_get d' k
  end.

(** The inner loop [for j in range(i + 1, len(files))] of
    [cluster_images]: [rest] is [files[i+1:]]. *)
Fixpoint scan_rest (image_hashes : list (Path * ImageHash)) (threshold : Z)
    (file_a : Path) (rest visited cluster : list Path) : list Path * list Path :=
  match rest with
  | [] => (cluster, visited)
  | file_b :: rest' =>
      if decide (file_b ∈ visited) then
        scan_rest image_hashes threshold file_a rest' visited cluster
      else
        let distance := hash_sub (dict_get image_hashes file_a)
                                 (dict_get image_hashes file_b) in
        if decide (distance <= threshold)%Z then
          scan_rest image_hashes threshold file_a rest'
                    (visited ++ [file_b]) (cluster ++ [file_b])
        else scan_rest image_hashes threshold file_a rest' visited cluster
  end.

(** The test [distance <= threshold] of the inner loop. *)
Definition close (image_hashes : list (Path * ImageHash)) (threshold : Z)
    (file_a file_b : Path) : Prop :=
  (hash_sub (dict_get image_hashes file_a) (dict_get image_hashes file_b) <= threshold)%Z.

Global Instance close_dec image_hashes threshold file_a file_b :
  Decision (close image_hashes threshold file_a file_b).
Proof. unfold close. apply _. Defined.

(** The outer loop [for i, file_a in enumerate(files)]. *)
Fixpoint cluster_loop (image_hashes : list (Path * ImageHash)) (threshold : Z)
    (files visited : list Path) (clusters : list (list Path))
    : list (list Path) :=
  match files with
  | [] => clusters
  | file_a :: rest =>
      if decide (file_a ∈ visited) then
        cluster_loop image_hashes threshold rest visited clusters
      else
        let '(cluster, visited') :=
          scan_rest image_hashes threshold file_a rest
                    (visited ++ [file_a]) [file_a] in
        cluster_loop image_hashes threshold rest visited' (clusters ++ [cluster])
  end.

Definition cluster_images (image_hashes : list (Path * ImageHash))
    (threshold : Z) : list (list Path) :=
  cluster_loop image_hashes threshold (map fst image_hashes) [] [].

(** [pick_best]: [max(cluster, key=lambda f: f.stat().st_size)].  CPython's
    [max] keeps the first item and replaces it only by a strictly larger
    key; an empty sequence raises [ValueError] ([None]). *)
Variable st_size : Path -> Z.

Definition pick_best (cluster : list Path) : option Path :=
  match cluster with
  | [] => None
  | x :: xs =>
      Some (fold_left (fun best f =>
              if decide (st_size best < st_size f)%Z then f else best) xs x)
  end.

(** The report assembly loop of [main]. *)
Fixpoint pick_loop (clusters : list (list Path)) (unique_picks : list Path)
    (duplicate_count : nat) : option (list Path * nat) :=
  match clusters with
  | [] => Some (unique_picks, duplicate_count)
  | cluster :: cs =>
      best ← pick_best cluster;
      let dupes := filter (fun f => f ≠ best) cluster in
      pick_loop cs (unique_picks ++ [best]) (duplicate_count + length dupes)
  end.

Record report := {
  total_scanned : nat;
  unique_count : nat;
  duplicate_count : nat
}.

Definition scan_report (hashes : list (Path * ImageHash)) (threshold : Z)
    : option report :=
  let clusters := cluster_images hashes threshold in
  '(unique_picks, dup) ← pick_loop clusters [] 0;
  Some {| total_scanned := length hashes;
          unique_count := length unique_picks;
          duplicate_count := dup |}.

End Dedup.

End Dedup.

(* ------------------------------------------------------------------ *)
(** ** dedup.py: [main], from the scan to the report *)

Module DedupMain.
Import Dedup.

(** One entry of [report_clusters]: the JSON object built for a cluster. *)
Record cluster_entry := {
  selected : string;
  selected_size : string;
  duplicates : list string;
  count : nat
}.

(** The report [main] writes to [dedup_report.json]. *)
Record dedup_report := {
  source : string;
  report_total_scanned : nat;
  report_unique_count : nat;
  report_duplicate_count : nat;
  threshold : Z;
  clusters : list cluster_entry
}.

(** How [main] ends: [sys.exit(0)] when the scan finds no image, an
    uncaught exception, or a report (with the picks it copies). *)
Inductive main_result (Path : Type) :=
  | NoImages
  | MainError (error : string)
  | Report (unique_picks : list Path) (report : dedup_report).
Arguments NoImages {Path}.
Arguments MainError {Path} error.
Arguments Report {Path} unique_picks report.

(** [report_clusters.sort(key=lambda c: c["count"], reverse=True)].
    Python's sort is stable, also with [reverse=True]: entries with equal
    counts keep their order.  Inserting each entry after every entry of
    count at least its own gives that same list. *)
Fixpoint insert_by_count (c : cluster_entry) (l : list cluster_entry)
    : list cluster_entry :=
  match l with
  | [] => [c]
  | c' :: l' => if decide (count c' < count c) then c :: l
                else c' :: insert_by_count c l'
  end.

Definition sort_by_count (l : list cluster_entry) : list cluster_entry :=
  fold_left (fun acc c => insert_by_count c acc) l [].

(** [[c for c in clusters if c['count'] > 1]]: the duplicate groups
    [main] prints and the review pages show. *)
Definition multi_clusters (l : list cluster_entry) : list cluster_entry :=
  filter (fun c => 1 < count c) l.

(** [f"{x:.1f}"]: [10 x] rounded to an integer, ties to even (the exact
    value of the float is rounded), printed with one decimal. *)
Definition round_half_even (num den : Z) : Z :=
  (let q := num / den in
   let r := num mod den in
   if decide (2 * r < den) then q
   else if decide (den < 2 * r) then q + 1
   else if Z.even q then q else q + 1)%Z.

Definition format_1f_nonneg (x : Q) : string :=
  let t := round_half_even (10 * Qnum x)%Z (Zpos (Qden x)) in
  pretty (t / 10)%Z +:+ "." +:+ pretty (t mod 10)%Z.

Definition format_1f (x : Q) : string :=
  if Qlt_le_dec x 0 then "-" +:+ format_1f_nonneg (- x) else format_1f_nonneg x.

(** [format_size(size_bytes)]: the loop [for unit in ['B', 'KB', 'MB', 'GB']].
    Below 2^53 bytes every [size_bytes /= 1024] is exact in binary64, so
    the value is kept as a rational. *)
Fixpoint format_size_loop (units : list string) (size_bytes : Q) : string :=
  match units with
  | [] => format_1f size_bytes +:+ " TB"
  | unit :: units' =>
      if Qlt_le_dec size_bytes (inject_Z 1024) then format_1f size_bytes +:+ " " +:+ unit
      else format_size_loop units' (size_bytes / inject_Z 1024)
  end.

Definition format_size (size_bytes : Z) : string :=
  format_size_loop ["B"; "KB"; "MB"; "GB"] (inject_Z size_bytes).

Section Main.
Context {Path : Type} `{EqDecision Path}.

(** [hashes[img] = h] on a dict: replace the value of an existing key in
    place, or append a new key. *)
Fixpoint dict_assign (d : list (Path * ImageHash)) (k : Path) (v : ImageHash)
    : list (Path * ImageHash) :=
  match d with
  | [] => [(k, v)]
  | (k', v') :: d' => if decide (k = k') then (k', v) :: d'
                      else (k', v') :: dict_assign d' k v
  end.

(** [compute_hash(img)]: [None] when the image cannot be opened. *)
Variable compute_hash : Path -> option ImageHash.

(** [for img in images: h = compute_hash(img); if h is not None: hashes[img] = h] *)
Fixpoint hash_loop (images : list Path) (hashes : list (Path * ImageHash))
    : list (Path * ImageHash) :=
  match images with
  | [] => hashes
  | img :: rest =>
      match compute_hash img with
      | Some h => hash_loop rest (dict_assign hashes img h)
      | None => hash_loop rest hashes
      end
  end.

Variable st_size : Path -> Z.
(** [f.name] *)
Variable name : Path -> string.

(** [for cluster in clusters:] building [unique_picks], [duplicate_count]
    and [report_clusters]. *)
Fixpoint report_loop (clusters : list (list Path)) (unique_picks : list Path)
    (duplicate_count : nat) (report_clusters : list cluster_entry)
    : option (list Path * nat * list cluster_entry) :=
  match clusters with
  | [] => Some (unique_picks, duplicate_count, report_clusters)
  | cluster :: cs =>
      best ← pick_best st_size cluster;
      let dupes := filter (fun f => f ≠ best) cluster in
      report_loop cs (unique_picks ++ [best]) (duplicate_count + length dupes)
        (report_clusters ++
           [{| selected := name best;
               selected_size := format_size (st_size best);
               duplicates := map name dupes;
               count := length cluster |}])
  end.

(** [main] from the scan to the report, for [images = get_image_files(source)]:
    an empty scan exits, [100*len(unique_picks)/len(hashes)] raises when no
    image could be hashed, and [max] on an empty cluster would raise. *)
Definition main (source_name : string) (threshold : Z) (images : list Path)
    : main_result Path :=
  match images with
  | [] => NoImages
  | _ =>
      let hashes := hash_loop images [] in
      let clusters := cluster_images hashes threshold in
      match report_loop clusters [] 0 [] with
      | None => MainError "ValueError"
      | Some (unique_picks, duplicate_count, report_clusters) =>
          let report_clusters := sort_by_count report_clusters in
          if decide (length hashes = 0) then MainError "ZeroDivisionError"
          else Report unique_picks
                 {| source := source_name;
                    report_total_scanned := length hashes;
                    report_unique_count := length unique_picks;
                    report_duplicate_count := duplicate_count;
                    threshold := threshold;
                    clusters := report_clusters |}
      end
  end.

End Main.

End DedupMain.

(* ------------------------------------------------------------------ *)
(** ** review_server.py: the trash manager ([/remove] and [/undo]) *)

Module Trash.

(** A file path [Path(d) / name], kept as its parent directory and base
    name.  [str(p)] and [Path(str(p))] are the identity on the (absolute,
    normalised) paths the handlers see, so the manifest keeps paths. *)
Abbreviation path := (string * string)%type.

(** A manifest: the Python dict [TRASH_MANIFEST], [{original: trash}], as
    an association list in insertion order with distinct keys. *)
Abbreviation manifest_t := (list (path * path)).

(** The content of a regular file: raw bytes, or the text [json.dump]
    writes for a manifest (kept structured: [json.load] reads it back). *)
Inductive content :=
  | Raw (bytes : string)
  | Json (m : manifest_t).

(** Server state.  [files]: the regular files; [dirs]: the existing
    directories (sub-directories of the quarantine directory are not
    modelled, the handlers never create any); [locked]: the files that
    cannot be removed from their directory (a directory without write
    permission: [os.rename] and [os.unlink] raise [PermissionError]);
    [unreadable]: the files that cannot be opened for reading;
    [manifest]: the global [TRASH_MANIFEST]; [moves]: a ghost log of every
    rename performed. *)
Record state := mkState {
  files : gmap path content;
  dirs : gset string;
  locked : gset path;
  unreadable : gset path;
  manifest : manifest_t;
  moves : list (path * path)
}.

Definition set_files (fs : gmap path content) (s : state) : state :=
  mkState fs (dirs s) (locked s) (unreadable s) (manifest s) (moves s).
Definition set_dirs (ds : gset string) (s : state) : state :=
  mkState (files s) ds (locked s) (unreadable s) (manifest s) (moves s).
Definition set_manifest (m : manifest_t) (s : state) : state :=
  mkState (files s) (dirs s) (locked s) (unreadable s) m (moves s).
Definition set_moves (mv : list (path * path)) (s : state) : state :=
  mkState (files s) (dirs s) (locked s) (unreadable s) (manifest s) mv.

(** Python's exceptions propagate with the side effects done so far; a
    computation also reports every state it steps through (its trace). *)
Inductive outcome (A : Type) : Type :=
  | Ok (a : A)
  | Exc (error : string).
Arguments Ok {A} a.
Arguments Exc {A} error.

Definition M (A : Type) : Type := state -> list state * outcome A * state.

Definition ret {A} (a : A) : M A := fun s => ([], Ok a, s).
Definition bind {A B} (m : M A) (k : A -> M B) : M B := fun s =>
  match m s with
  | (tr, Ok a, s1) => let '(tr2, r, s2) := k a s1 in (tr ++ tr2, r, s2)
  | (tr, Exc e, s1) => (tr, Exc e, s1)
  end.

Notation "'let!' x ':=' m 'in' k" := (bind m (fun x => k))
  (at level 200, x name, m at level 100, k at level 200).

Definition gets {A} (f : state -> A) : M A := fun s => ([], Ok (f s), s).
Definition step (f : state -> state) : M unit :=
  fun s => let s' := f s in ([s'], Ok tt, s').
Definition raise {A} (e : string) : M A := fun s => ([], Exc e, s).

(** [try: body except Exception as e: handler(str(e))]. *)
Definition try_except {A} (body : M A) (handler : string -> M A) : M A :=
  fun s =>
    match body s with
    | (tr, Exc e, s1) => let '(tr2, r, s2) := handler e s1 in (tr ++ tr2, r, s2)
    | res => res
    end.

(** [p.exists()] *)
Definition path_exists (p : path) : M bool :=
  gets (fun s => bool_decide (is_Some (files s !! p))).

(** [d.mkdir(parents=True, exist_ok=True)] *)
Definition mkdir (d : string) : M unit :=
  step (fun s => set_dirs ({[d]} ∪ dirs s) s).

(** [shutil.move(src, dst)]: [os.rename(src, dst)], replacing [dst] if it
    exists.  When the rename raises (a file of [locked], or a missing
    target directory), [shutil.move] falls back to [copy2(src, dst)] and
    then [os.unlink(src)]: the copy raises for an unreadable source or a
    missing target directory, with nothing written; otherwise the copy is
    made and [os.unlink] raises, which leaves the copy at [dst]. *)
Definition shutil_move (src dst : path) : M unit := fun s =>
  match files s !! src with
  | None => raise "FileNotFoundError" s
  | Some c =>
      if decide (src ∈ locked s \/ dst.1 ∉ dirs s) then
        if decide (dst.1 ∈ dirs s /\ src ∉ unreadable s)
        then (let! _ := step (fun s => set_files (<[dst := c]> (files s)) s) in
              raise "OSError") s
        else raise "OSError" s
      else step (fun s => set_moves (moves s ++ [(src, dst)])
                            (set_files (<[dst := c]> (delete src (files s))) s)) s
  end.

(** [p.unlink()], which raises for a file of [locked], and [d.rmdir()] *)
Definition unlink (p : path) : M unit := fun s =>
  if decide (p ∈ locked s) then raise "OSError" s
  else step (fun s => set_files (delete p (files s)) s) s.
Definition rmdir (d : string) : M unit :=
  step (fun s => set_dirs (dirs s ∖ {[d]}) s).

(** [d[k] = v] on a dict: replace in place, or append a new key. *)
Fixpoint dict_set (d : manifest_t) (k v : path) : manifest_t :=
  match d with
  | [] => [(k, v)]
  | (k', v') :: d' => if decide (k = k') then (k, v) :: d' else (k', v') :: dict_set d' k v
  end.

Definition manifest_set (k v : path) : M unit :=
  step (fun s => set_manifest (dict_set (manifest s) k v) s).
Definition manifest_clear : M unit :=
  step (fun s => set_manifest [] s).

(** [open(p, 'w')] truncates the file; [json.dump(TRASH_MANIFEST, f)]
    then writes the manifest into it. *)
Definition open_w (p : path) : M unit := fun s =>
  if decide (p.1 ∈ dirs s) then step (fun s => set_files (<[p := Raw ""]> (files s)) s) s
  else raise "FileNotFoundError" s.
Definition json_dump (p : path) : M unit :=
  step (fun s => set_files (<[p := Json (manifest s)]> (files s)) s).

(** [not any(d.iterdir())] *)
Definition dir_empty (d : string) (fs : gmap path content) : bool :=
  bool_decide (map_Forall (fun (p : path) (_ : content) => p.1 <> d) fs).

(** [PurePath.suffix] and [PurePath.stem]:
    [i = name.rfind('.')]; [if 0 < i < len(name) - 1: name[i:] / name[:i]]. *)
Fixpoint rfind_dot_from (s : string) (i : nat) (acc : option nat) : option nat :=
  match s with
  | EmptyString => acc
  | String c s' => rfind_dot_from s' (S i) (if Ascii.eqb c "."%char then Some i else acc)
  end.
Definition rfind_dot (s : string) : option nat := rfind_dot_from s 0 None.

Definition path_suffix (name : string) : string :=
  match rfind_dot name with
  | Some i => if decide (0 < i < String.length name - 1)
              then String.substring i (String.length name - i) name else ""
  | None => ""
  end.
Definition path_stem (name : string) : string :=
  match rfind_dot name with
  | Some i => if decide (0 < i < String.length name - 1)
              then String.substring 0 i name else name
  | None => name
  end.

Section Handlers.
(** [TRASH_DIR = SOURCE_DIR / '.dedup_trash'], fixed at startup. *)
Variable TRASH_DIR : string.

Definition manifest_path : path := (TRASH_DIR, "manifest.json").

(** [TRASH_DIR / f"{stem}_{counter}{suffix}"] *)
Definition candidate (stem suffix : string) (counter : nat) : path :=
  (TRASH_DIR, stem +:+ "_" +:+ pretty counter +:+ suffix).

(** [while trash_dest.exists(): trash_dest = candidate(counter); counter += 1].
    The loop only reads the file system; [fuel] bounds it by the number of
    files plus one, which [probe_free] shows is always enough. *)
Fixpoint probe (fs : gmap path content) (stem suffix : string) (fuel counter : nat)
    : path :=
  match fuel with
  | 0 => candidate stem suffix counter
  | S fuel' =>
      if decide (is_Some (fs !! candidate stem suffix counter))
      then probe fs stem suffix fuel' (S counter)
      else candidate stem suffix counter
  end.

Definition trash_destination (fs : gmap path content) (fpath : path) : path :=
  let trash_dest := (TRASH_DIR, fpath.2) in
  if decide (is_Some (fs !! trash_dest))
  then probe fs (path_stem fpath.2) (path_suffix fpath.2) (S (size fs)) 1
  else trash_dest.

(** The JSON response of a handler. *)
Inductive response :=
  | RespOk (count : nat)
  | RespErr (error : string).

(** [/remove], the loop [for fpath_str in files]. *)
Fixpoint remove_loop (req : list path) (moved : nat) : M nat :=
  match req with
  | [] => ret moved
  | fpath :: rest =>
      let! e := path_exists fpath in
      if e then
        let! trash_dest := gets (fun s => trash_destination (files s) fpath) in
        let! _ := shutil_move fpath trash_dest in
        let! _ := manifest_set fpath trash_dest in
        remove_loop rest (S moved)
      else remove_loop rest moved
  end.

Definition do_remove (req : list path) : M response :=
  try_except
    (let! _ := mkdir TRASH_DIR in
     let! moved := remove_loop req 0 in
     let! _ := open_w manifest_path in
     let! _ := json_dump manifest_path in
     ret (RespOk moved))
    (fun e => ret (RespErr e)).

(** [/undo], the loop [for original_str, trash_str in list(TRASH_MANIFEST.items())]. *)
Fixpoint undo_loop (entries : manifest_t) (restored : nat) : M nat :=
  match entries with
  | [] => ret restored
  | (original, trash) :: rest =>
      let! e := path_exists trash in
      if e then
        let! _ := mkdir original.1 in
        let! _ := shutil_move trash original in
        undo_loop rest (S restored)
      else undo_loop rest restored
  end.

Definition do_undo : M response :=
  try_except
    (let! entries := gets manifest in
     let! restored := undo_loop entries 0 in
     let! _ := manifest_clear in
     let! e := path_exists manifest_path in
     let! _ := (if e then unlink manifest_path else ret tt) in
     let! d := gets (fun s => bool_decide (TRASH_DIR ∈ dirs s)
                               && dir_empty TRASH_DIR (files s)) in
     let! _ := (if d then rmdir TRASH_DIR else ret tt) in
     ret (RespOk restored))
    (fun e => ret (RespErr e)).

End Handlers.

End Trash.

(* ------------------------------------------------------------------ *)
(** ** Auxiliary notions for stating properties of the trash manager *)

Module TrashSpec.
Import Trash.

(** Big-step reading of a computation, forgetting its trace. *)
Definition exec {A} (m : M A) (s : state) (r : outcome A) (s' : state) : Prop :=
  exists tr, m s = (tr, r, s').

(** Whether a string contains the character [_]. *)
Fixpoint has_underscore (s : string) : bool :=
  match s with
  | EmptyString => false
  | String c s' => Ascii.eqb c "_"%char || has_underscore s'
  end.

(** [fs] is [base] with the file at each original path [p] of the
    manifest [L] moved to its quarantine path [q]. *)
Definition relocated (base : gmap path content) (L : manifest_t)
    (fs : gmap path content) : Prop :=
  (forall x, x ∈ map fst L -> fs !! x = None) /\
  (forall p q, (p, q) ∈ L -> fs !! q = base !! p) /\
  (forall x, x ∉ map fst L -> x ∉ map snd L -> fs !! x = base !! x).

(** The manifest [L] is a one-to-one map from files of [base] outside the
    quarantine directory [T] to free paths inside it. *)
Definition entries_ok (T : string) (base : gmap path content) (L : manifest_t) : Prop :=
  NoDup (map fst L) /\ NoDup (map snd L) /\
  (forall p q, (p, q) ∈ L ->
     p.1 <> T /\ q.1 = T /\ is_Some (base !! p) /\ base !! q = None).

(** A first [/remove] on a source tree: nothing lies in the quarantine
    directory [T] yet, every file's parent directory exists, the manifest
    is empty and no file is protected against moving. *)
Definition fresh_start (T : string) (s : state) : Prop :=
  map_Forall (fun (x : path) (_ : content) => x.1 <> T /\ x.1 ∈ dirs s) (files s) /\
  manifest s = [] /\ locked s = ∅.

Global Instance fresh_start_dec T s : Decision (fresh_start T s).
Proof. unfold fresh_start. apply _. Defined.

(** No two manifest entries share a quarantine path, and each quarantine
    path lies in [T] and holds a file. *)
Definition manifest_injective (T : string) (s : state) : Prop :=
  NoDup (map snd (manifest s)) /\
  forall p q, (p, q) ∈ manifest s -> q.1 = T /\ is_Some (files s !! q).

Global Instance manifest_injective_dec T s : Decision (manifest_injective T s).
Proof.
  unfold manifest_injective.
  destruct (decide (Forall (fun e : path * path => e.2.1 = T /\ is_Some (files s !! e.2))
                      (manifest s))) as [Hf|Hf].
  - destruct (decide (NoDup (map snd (manifest s)))) as [Hn|Hn]; [left|right; tauto].
    split; [done|]. intros p q Hin. rewrite Forall_forall in Hf. exact (Hf (p, q) Hin).
  - right. intros [_ H]. apply Hf, Forall_forall. intros [p q] Hin. exact (H p q Hin).
Defined.

(** [m] keeps [P] whatever it returns or raises. *)
Definition preserves {A} (P : state -> Prop) (m : M A) : Prop :=
  forall s r s', P s -> exec m s r s' -> P s'.

(** Batches of [/remove] requests whose paths lie outside the quarantine
    directory, with changes made by other programs in between that leave
    the quarantine directory and the server's manifest alone. *)
Inductive session (T : string) : state -> state -> Prop :=
  | session_nil s : session T s s
  | session_remove req r s s1 s2 :
      Forall (fun p : path => p.1 <> T) req ->
      exec (do_remove T req) s r s1 -> session T s1 s2 -> session T s s2
  | session_external s s1 s2 :
      manifest s1 = manifest s ->
      (forall x : path, x.1 = T -> files s1 !! x = files s !! x) ->
      session T s1 s2 -> session T s s2.

End TrashSpec.

(* ------------------------------------------------------------------ *)
(** ** Copies: [/save] of review_server.py, the copy stage of dedup.py,
    and the manifest loaded when the review server starts *)

Module TrashSave.
Import Trash TrashSpec.

(** [shutil.copy2(src, dst)]: the source stays; [dst] gets its content.
    A missing source raises [FileNotFoundError], an unreadable source
    (a file of [unreadable]) raises [OSError], a missing target directory
    raises [FileNotFoundError]. *)
Definition shutil_copy2 (src dst : path) : M unit := fun s =>
  match files s !! src with
  | None => raise "FileNotFoundError" s
  | Some c =>
      if decide (src ∈ unreadable s) then raise "OSError" s
      else if decide (dst.1 ∈ dirs s)
      then step (fun s => set_files (<[dst := c]> (files s)) s) s
      else raise "FileNotFoundError" s
  end.

Section Save.
(** [OUTPUT_DIR], fixed at startup. *)
Variable OUTPUT_DIR : string.

(** [/save], the loop [for fpath_str in files]: [dest] is [OUTPUT_DIR /
    fpath.name], or the first free [OUTPUT_DIR / f"{stem}_{counter}{suffix}"]
    (the same probe as in [/remove]). *)
Fixpoint save_loop (req : list path) (copied : nat) : M nat :=
  match req with
  | [] => ret copied
  | fpath :: rest =>
      let! e := path_exists fpath in
      if e then
        let! dest := gets (fun s => trash_destination OUTPUT_DIR (files s) fpath) in
        let! _ := shutil_copy2 fpath dest in
        save_loop rest (S copied)
      else save_loop rest copied
  end.

Definition do_save (req : list path) : M response :=
  try_except
    (let! _ := mkdir OUTPUT_DIR in
     let! copied := save_loop req 0 in
     ret (RespOk copied))
    (fun e => ret (RespErr e)).

End Save.

(** dedup.py [main], the copy stage: [output.mkdir(...)], then for each
    pick [dest = output / img.name], probed like above when it exists, and
    [shutil.copy2(img, dest)]; nothing catches an exception. *)
Fixpoint copy_loop (output : string) (unique_picks : list path) : M unit :=
  match unique_picks with
  | [] => ret tt
  | img :: rest =>
      let! dest := gets (fun s => trash_destination output (files s) img) in
      let! _ := shutil_copy2 img dest in
      copy_loop output rest
  end.

Definition copy_unique (output : string) (unique_picks : list path) : M unit :=
  let! _ := mkdir output in
  copy_loop output unique_picks.

(** review_server.py [main]: [if manifest_path.exists(): TRASH_MANIFEST =
    json.load(f)]; the manifest stays [{}] otherwise.  [parse_json] is
    [json.load] on raw bytes. *)
Definition load_manifest (TRASH_DIR : string) (parse_json : string -> option manifest_t)
    (fs : gmap path content) : outcome manifest_t :=
  match fs !! manifest_path TRASH_DIR with
  | None => Ok []
  | Some (Json m) => Ok m
  | Some (Raw b) =>
      match parse_json b with
      | Some m => Ok m
      | None => Exc "JSONDecodeError"
      end
  end.

(** [fs] is [base] plus a copy of each source file [srcs[i]] at the
    path [ds[i]]: distinct paths of [OUT] that were free in [base]. *)
Definition copies (OUT : string) (base fs : gmap path content)
    (srcs ds : list path) : Prop :=
  NoDup ds /\
  Forall (fun d : path => d.1 = OUT /\ base !! d = None) ds /\
  Forall (fun p => is_Some (base !! p)) srcs /\
  Forall2 (fun p d => fs !! d = base !! p) srcs ds /\
  (forall x, x ∉ ds -> fs !! x = base !! x).

End TrashSave.

(* ------------------------------------------------------------------ *)
(** ** Sample inputs *)

Module Samples.
Import Dedup Trash.

(** Three scanned files with 4-bit hashes: files 1 and 2 differ in one
    bit, file 3 is far from both. *)
Definition dW : list (nat * ImageHash) :=
  [(1, [true; false; true; false]); (2, [true; false; true; true]);
   (3, [false; true; false; true])].

Definition sizeW (n : nat) : Z :=
  match n with 1 => 5%Z | 2 => 9%Z | 3 => 9%Z | _ => 0%Z end.

Definition T0 : string := "/photos/.dedup_trash".

(** A user's own file named [manifest.json]. *)
Definition notes : path := ("/photos", "manifest.json").
Definition s_notes : state :=
  mkState {[notes := Raw "my notes"]} {["/photos"]} ∅ ∅ [] [].

(** The same file holding a manifest-shaped JSON document that lists a
    move which never happened. *)
Definition fake_entry : path * path := (("/photos", "x.jpg"), (T0, "x.jpg")).
Definition s_fake : state :=
  mkState {[notes := Json [fake_entry]; ("/photos", "x.jpg") := Raw "x"]}
          {["/photos"]} ∅ ∅ [] [].

(** A manifest entry whose quarantined file has gone missing. *)
Definition lost_entry : path * path := (("/photos", "a.jpg"), (T0, "a.jpg")).
Definition s_lost : state := mkState ∅ {["/photos"; T0]} ∅ ∅ [lost_entry] [].

Definition pa : path := ("/photos", "a.jpg").
Definition pb : path := ("/photos", "b.jpg").
Definition pc : path := ("/photos", "c.jpg").

(** [b.jpg] can be read but not removed from its directory (a
    permission error). *)
Definition s_locked : state :=
  mkState {[pa := Raw "a"; pb := Raw "b"; pc := Raw "c"]} {["/photos"]} {[pb]} ∅ [] [].

(** [s_locked] after the quarantine directory is created and [a.jpg] is
    moved. *)
Definition s_locked_a : state :=
  (remove_loop T0 [pa] 0 (set_dirs ({[T0]} ∪ dirs s_locked) s_locked)).2.

(** Two quarantined files; the second cannot be moved back (its
    directory entry is locked). *)
Definition s_stuck : state :=
  mkState {[(T0, "a.jpg") := Raw "a"; (T0, "b.jpg") := Raw "b"]}
          {["/photos"; T0]} {[(T0, "b.jpg")]} ∅
          [(pa, (T0, "a.jpg")); (pb, (T0, "b.jpg"))] [].

Definition s_plain : state := mkState {[pa := Raw "a"]} {["/photos"]} ∅ ∅ [] [].

(** Two different files with the same name. *)
Definition p2023 : path := ("/photos/2023", "a.jpg").
Definition p2024 : path := ("/photos/2024", "a.jpg").
Definition s_twins : state :=
  mkState {[p2023 := Raw "one"; p2024 := Raw "two"]}
          {["/photos"; "/photos/2023"; "/photos/2024"]} ∅ ∅ [] [].

(** [s_twins] after one [/remove] of each of the two files. *)
Definition s_twins_after : state :=
  (do_remove T0 [p2024] (do_remove T0 [p2023] s_twins).2).2.

(** A second scan: file 4 has the hash of file 1, file 5 cannot be
    opened; files 1 and 2 share the name [a.jpg]. *)
Definition hashW (n : nat) : option ImageHash :=
  match n with
  | 1 | 4 => Some [true; false; true; false]
  | 2 => Some [true; false; true; true]
  | 3 => Some [false; true; false; true]
  | _ => None
  end.
Definition nameW (n : nat) : string :=
  match n with 1 | 2 => "a.jpg" | 3 => "c.jpg" | 4 => "d.jpg" | _ => "e.jpg" end.
Definition imagesW : list nat := [1; 2; 3; 4; 5].

(** The report entry of the cluster [[1; 2; 4]] of that scan. *)
Definition entryW : DedupMain.cluster_entry :=
  {| DedupMain.selected := "a.jpg"; DedupMain.selected_size := "9.0 B";
     DedupMain.duplicates := ["a.jpg"; "d.jpg"]; DedupMain.count := 3 |}.

(** An output folder and a path that does not exist. *)
Definition OUT0 : string := "/photos/selected".
Definition pgone : path := ("/photos", "gone.jpg").

End Samples.

(* ------------------------------------------------------------------ *)
(** ** Properties of the clustering and of the report *)

Module DedupFacts.
Import Dedup.

Section Lists.
Context {A : Type}.

Lemma filter_ext_in (P1 P2 : A -> Prop) `{!forall x, Decision (P1 x)}
    `{!forall x, Decision (P2 x)} (l : list A) :
  (forall x, x ∈ l -> (P1 x <-> P2 x)) -> filter P1 l = filter P2 l.
Proof.
  induction l as [|x l IH]; intros Hiff; [done|].
  rewrite !filter_cons.
  assert (HP : P1 x <-> P2 x) by (apply Hiff; left).
  rewrite IH by (intros y Hy; apply Hiff; right; exact Hy).
  destruct (decide (P1 x)), (decide (P2 x)); naive_solver.
Qed.

Lemma filter_all (P : A -> Prop) `{!forall x, Decision (P x)} (l : list A) :
  (forall x, x ∈ l -> P x) -> filter P l = l.
Proof.
  induction l as [|x l IH]; intros HP; [done|].
  rewrite filter_cons_True by (apply HP; left).
  f_equal. apply IH. intros y Hy. apply HP. by right.
Qed.

Lemma filter_split_perm (Q P : A -> Prop) `{!forall x, Decision (Q x)}
    `{!forall x, Decision (P x)} (l : list A) :
  filter (fun b => Q b /\ P b) l ++ filter (fun b => Q b /\ ~ P b) l ≡ₚ filter Q l.
Proof.
  rewrite <-(filter_app_complement P (filter Q l)).
  rewrite !list_filter_filter.
  f_equiv; (erewrite list_filter_iff; [reflexivity|]); naive_solver.
Qed.

End Lists.

Section Clusters.
Context {Path : Type} `{EqDecision Path}.
Implicit Types (d : list (Path * ImageHash)) (t : Z).

Lemma scan_rest_spec d t a (rest visited cluster : list Path) :
  NoDup rest ->
  scan_rest d t a rest visited cluster =
    (cluster ++ filter (fun b => (b ∉ visited) /\ close d t a b) rest,
     visited ++ filter (fun b => (b ∉ visited) /\ close d t a b) rest).
Proof.
  revert visited cluster.
  induction rest as [|b rest IH]; intros visited cluster Hnd; simpl.
  - by rewrite !app_nil_r.
  - apply NoDup_cons in Hnd as [Hb Hnd].
    rewrite filter_cons. unfold close at 1.
    destruct (decide (b ∈ visited)) as [Hin|Hin].
    + rewrite !decide_False by naive_solver. by apply IH.
    + destruct (decide (hash_sub (dict_get d a) (dict_get d b) <= t)%Z) as [Hc|Hc].
      * rewrite !decide_True by (unfold close; naive_solver).
        rewrite IH by done.
        assert (Hf : filter (fun x => (x ∉ visited ++ [b]) /\ close d t a x) rest
                   = filter (fun x => (x ∉ visited) /\ close d t a x) rest).
        { apply filter_ext_in. intros x Hx.
          rewrite elem_of_app, list_elem_of_singleton.
          assert (x <> b) by (intros ->; contradiction). naive_solver. }
        rewrite Hf, <-!app_assoc. done.
      * rewrite !decide_False by (unfold close; naive_solver). by apply IH.
Qed.

Lemma cluster_loop_perm d t (files visited : list Path) (clusters : list (list Path)) :
  NoDup files ->
  concat (cluster_loop d t files visited clusters)
    ≡ₚ concat clusters ++ filter (fun b => b ∉ visited) files.
Proof.
  revert visited clusters.
  induction files as [|a rest IH]; intros visited clusters Hnd; simpl.
  - by rewrite app_nil_r.
  - apply NoDup_cons in Hnd as [Ha Hnd].
    rewrite filter_cons.
    destruct (decide (a ∈ visited)) as [Hin|Hin].
    + rewrite !decide_False by naive_solver. by apply IH.
    + rewrite decide_True by done.
      rewrite scan_rest_spec by done.
      rewrite IH by done.
      set (sel := filter (fun b => (b ∉ visited ++ [a]) /\ close d t a b) rest).
      assert (Hsel : sel = filter (fun b => (b ∉ visited) /\ close d t a b) rest).
      { apply filter_ext_in. intros x Hx.
        rewrite elem_of_app, list_elem_of_singleton.
        assert (x <> a) by (intros ->; contradiction). naive_solver. }
      assert (Hrest : filter (fun b => b ∉ (visited ++ [a]) ++ sel) rest
                    = filter (fun b => (b ∉ visited) /\ ~ close d t a b) rest).
      { apply filter_ext_in. intros x Hx.
        assert (x <> a) by (intros ->; contradiction).
        rewrite !elem_of_app, list_elem_of_singleton.
        unfold sel. rewrite list_elem_of_filter, elem_of_app, list_elem_of_singleton.
        tauto. }
      rewrite Hrest. rewrite concat_app. simpl. rewrite app_nil_r, <-!app_assoc.
      f_equiv. simpl. f_equiv. rewrite Hsel. apply filter_split_perm.
Qed.

Lemma cluster_loop_nonempty d t (files visited : list Path) (clusters : list (list Path)) :
  Forall (fun c => c <> []) clusters ->
  Forall (fun c => c <> []) (cluster_loop d t files visited clusters).
Proof.
  revert visited clusters.
  induction files as [|a rest IH]; intros visited clusters Hne; simpl; [done|].
  destruct (decide (a ∈ visited)); [by apply IH|].
  destruct (scan_rest d t a rest (visited ++ [a]) [a]) as [cl vis] eqn:Hs.
  apply IH. apply Forall_app; split; [done|]. constructor; [|constructor].
  (* the cluster returned by [scan_rest] starts with its seed *)
  assert (Hpre : forall r v c, exists c', (scan_rest d t a r v c).1 = c ++ c').
  { induction r as [|b r IHr]; intros v c; simpl.
    - exists []. by rewrite app_nil_r.
    - repeat case_decide; try apply IHr.
      destruct (IHr (v ++ [b]) (c ++ [b])) as [c' ->]. exists (b :: c').
      by rewrite <-app_assoc. }
  destruct (Hpre rest (visited ++ [a]) [a]) as [c' Hc']. rewrite Hs in Hc'.
  simpl in Hc'. subst cl. done.
Qed.

(** C2: the clusters partition the input.  Concatenated, the clusters
    are a permutation of the dict's keys: every scanned file lies in
    exactly one cluster, none is dropped and none appears twice. *)
Theorem cluster_images_partition d t :
  NoDup (map fst d) ->
  concat (cluster_images d t) ≡ₚ map fst d.
Proof.
  intros Hnd. unfold cluster_images.
  rewrite cluster_loop_perm by done. simpl.
  rewrite filter_all; [done|]. intros x _ Hx. inversion Hx.
Qed.

Lemma cluster_images_nonempty d t :
  Forall (fun c => c <> []) (cluster_images d t).
Proof. apply cluster_loop_nonempty. constructor. Qed.

Lemma NoDup_concat_Forall (cs : list (list Path)) :
  NoDup (concat cs) -> Forall NoDup cs.
Proof.
  induction cs as [|c cs IH]; simpl; intros Hnd; constructor;
    apply NoDup_app in Hnd as (? & ? & ?); auto.
Qed.

Lemma cluster_images_NoDup d t :
  NoDup (map fst d) -> Forall NoDup (cluster_images d t).
Proof.
  intros Hnd. apply NoDup_concat_Forall.
  rewrite cluster_images_partition by done. exact Hnd.
Qed.

End Clusters.

Section Selection.
Context {Path : Type} `{EqDecision Path}.
Variable st_size : Path -> Z.

Lemma fold_pick_spec (x : Path) (xs : list Path) :
  let r := fold_left (fun best f =>
             if decide (st_size best < st_size f)%Z then f else best) xs x in
  (forall y, y ∈ x :: xs -> (st_size y <= st_size r)%Z) /\
  exists i, (x :: xs) !! i = Some r /\
    forall j y, j < i -> (x :: xs) !! j = Some y -> (st_size y < st_size r)%Z.
Proof.
  revert x. induction xs as [|z zs IH]; intros x; simpl.
  - split.
    + intros y Hy. apply list_elem_of_singleton in Hy. subst. lia.
    + exists 0. split; [done|]. intros j y Hj. lia.
  - case_decide as Hxz.
    + destruct (IH z) as [Hmax [i [Hi Hfirst]]].
      set (r := fold_left _ zs z) in *.
      split.
      * intros y Hy. apply elem_of_cons in Hy as [->|Hy].
        -- specialize (Hmax z ltac:(left)). lia.
        -- by apply Hmax.
      * exists (S i). split; [done|].
        intros [|j] y Hj Hy; simpl in Hy.
        -- injection Hy as <-. specialize (Hmax z ltac:(left)). lia.
        -- apply (Hfirst j); [lia|done].
    + destruct (IH x) as [Hmax [i [Hi Hfirst]]].
      set (r := fold_left _ zs x) in *.
      split.
      * intros y Hy. apply elem_of_cons in Hy as [->|Hy].
        -- by apply Hmax; left.
        -- apply elem_of_cons in Hy as [->|Hy].
           ++ specialize (Hmax x ltac:(left)). lia.
           ++ by apply Hmax; right.
      * destruct i as [|i].
        -- exists 0. split; [done|]. intros j y Hj. lia.
        -- exists (S (S i)). split; [done|].
           intros [|[|j]] y Hj Hy; simpl in Hy.
           ++ injection Hy as <-. apply (Hfirst 0); [lia|done].
           ++ injection Hy as <-. specialize (Hfirst 0 x ltac:(lia) eq_refl). lia.
           ++ apply (Hfirst (S j)); [lia|done].
Qed.

(** C6: on a non-empty cluster [pick_best] returns a member of maximal
    [st_size], and the first such member in the cluster's order: every
    member before it is strictly smaller. *)
Theorem pick_best_max_first (cluster : list Path) :
  cluster <> [] ->
  exists r, pick_best st_size cluster = Some r /\
    (forall y, y ∈ cluster -> (st_size y <= st_size r)%Z) /\
    exists i, cluster !! i = Some r /\
      forall j y, j < i -> cluster !! j = Some y -> (st_size y < st_size r)%Z.
Proof.
  destruct cluster as [|x xs]; [done|]. intros _.
  eexists. split; [reflexivity|]. apply fold_pick_spec.
Qed.

Lemma pick_best_elem (cluster : list Path) (r : Path) :
  pick_best st_size cluster = Some r -> r ∈ cluster.
Proof.
  destruct cluster as [|x xs]; simpl; [done|]. intros [= <-].
  destruct (fold_pick_spec x xs) as [_ [i [Hi _]]].
  eapply list_elem_of_lookup_2. exact Hi.
Qed.

Lemma length_filter_ne (c : list Path) (x : Path) :
  NoDup c -> x ∈ c -> length (filter (fun f => f <> x) c) = length c - 1.
Proof.
  induction c as [|y c IH]; intros Hnd Hx; [inversion Hx|].
  apply NoDup_cons in Hnd as [Hy Hnd].
  rewrite filter_cons. simpl.
  destruct (decide (y = x)) as [->|Hne].
  - rewrite decide_False by naive_solver.
    rewrite filter_all; [lia|]. intros z Hz ->. contradiction.
  - rewrite decide_True by done. simpl.
    apply elem_of_cons in Hx as [->|Hx]; [done|].
    rewrite IH by done. destruct c; [inversion Hx|simpl; lia].
Qed.

Lemma pick_loop_counts (cs : list (list Path)) (ups : list Path) (n : nat) :
  Forall (fun c => c <> [] /\ NoDup c) cs ->
  exists bests,
    pick_loop st_size cs ups n =
      Some (ups ++ bests, n + sum_list_with (fun c => length c - 1) cs) /\
    length bests = length cs.
Proof.
  revert ups n. induction cs as [|c cs IH]; intros ups n Hcs; simpl.
  - exists []. rewrite !app_nil_r, Nat.add_0_r. done.
  - inversion Hcs as [|? ? [Hne Hnd] Hcs']; subst.
    destruct (pick_best_max_first c Hne) as [best [Hb _]].
    rewrite Hb. simpl.
    rewrite length_filter_ne by (done || by eapply pick_best_elem).
    destruct (IH (ups ++ [best]) (n + (length c - 1)) Hcs') as [bests [-> Hlen]].
    exists (best :: bests). rewrite <-app_assoc. simpl. split; [f_equal; f_equal; lia|lia].
Qed.

Lemma length_concat_sum (cs : list (list Path)) :
  length (concat cs) = sum_list_with length cs.
Proof. induction cs as [|c cs IH]; simpl; [done|]. by rewrite length_app, IH. Qed.

Lemma sum_lengths (cs : list (list Path)) :
  Forall (fun c => c <> []) cs ->
  sum_list_with length cs = length cs + sum_list_with (fun c => length c - 1) cs.
Proof.
  induction cs as [|c cs IH]; intros Hcs; simpl; [done|].
  inversion Hcs; subst. rewrite IH by done. destruct c; [done|simpl; lia].
Qed.

(** C9: the scan report's counters satisfy
    [total_scanned = unique_count + duplicate_count], with one unique pick
    per cluster and the non-representative members of all clusters counted
    as duplicates. *)
Theorem scan_report_counts (d : list (Path * ImageHash)) (t : Z) :
  NoDup (map fst d) ->
  exists r, scan_report st_size d t = Some r /\
    total_scanned r = unique_count r + duplicate_count r /\
    unique_count r = length (cluster_images d t) /\
    duplicate_count r =
      sum_list_with (fun c => length c - 1) (cluster_images d t).
Proof.
  intros Hnd. unfold scan_report.
  assert (Hcs : Forall (fun c => c <> [] /\ NoDup c) (cluster_images d t)).
  { apply Forall_and; split;
      [apply cluster_images_nonempty|by apply cluster_images_NoDup]. }
  destruct (pick_loop_counts (cluster_images d t) [] 0 Hcs) as [bests [-> Hlen]].
  simpl. eexists. split; [reflexivity|]. simpl.
  split; [|split; [done|done]].
  rewrite Hlen, <-sum_lengths by (eapply Forall_impl; [exact Hcs|naive_solver]).
  rewrite <-length_concat_sum, (cluster_images_partition d t Hnd), length_map.
  done.
Qed.

End Selection.

(** *** Instances on sample data *)

Import Samples.

Lemma cluster_images_partition_witness :
  concat (cluster_images dW 1) ≡ₚ map fst dW.
Proof.
  apply cluster_images_partition. apply (bool_decide_unpack _). vm_compute. reflexivity.
Defined.

Lemma pick_best_max_first_witness :
  exists r, pick_best sizeW [1; 2; 3] = Some r /\
    (forall y, y ∈ [1; 2; 3] -> (sizeW y <= sizeW r)%Z) /\
    exists i, [1; 2; 3] !! i = Some r /\
      forall j y, j < i -> [1; 2; 3] !! j = Some y -> (sizeW y < sizeW r)%Z.
Proof. apply pick_best_max_first. discriminate. Defined.

Lemma scan_report_counts_witness :
  exists r, scan_report sizeW dW 1 = Some r /\
    total_scanned r = unique_count r + duplicate_count r /\
    unique_count r = length (cluster_images dW 1) /\
    duplicate_count r = sum_list_with (fun c => length c - 1) (cluster_images dW 1).
Proof.
  apply scan_report_counts. apply (bool_decide_unpack _). vm_compute. reflexivity.
Defined.

(** The sample scan: files 1 and 2 form one cluster, whose largest and
    first largest member is 2; file 3 is alone. *)
Example sample_scan :
  cluster_images dW 1 = [[1; 2]; [3]] /\
  pick_best sizeW [1; 2] = Some 2 /\
  scan_report sizeW dW 1 =
    Some {| total_scanned := 3; unique_count := 2; duplicate_count := 1 |}.
Proof. vm_compute. repeat split. Qed.

End DedupFacts.

(* ------------------------------------------------------------------ *)
(** ** Properties of [main] of dedup.py *)

Module DedupMainFacts.
Import Dedup DedupMain DedupFacts.

Section Hashes.
Context {Path : Type} `{EqDecision Path}.
Implicit Types (d : list (Path * ImageHash)).

Lemma dict_assign_keys d k v :
  map fst (dict_assign d k v) =
    if decide (k ∈ map fst d) then map fst d else map fst d ++ [k].
Proof.
  induction d as [|[k' v'] d IH]; simpl; [done|].
  destruct (decide (k = k')) as [->|Hk]; simpl.
  - rewrite decide_True by (apply elem_of_cons; left; done). done.
  - rewrite IH. destruct (decide (k ∈ map fst d)) as [Hin|Hin].
    + rewrite decide_True by (apply elem_of_cons; right; exact Hin). done.
    + rewrite decide_False; [done|]. intros [->|?]%elem_of_cons; contradiction.
Qed.

Lemma dict_assign_get d k v j :
  dict_get (dict_assign d k v) j = if decide (j = k) then v else dict_get d j.
Proof.
  induction d as [|[k' v'] d IH]; simpl.
  - destruct (decide (j = k)); reflexivity.
  - destruct (decide (k = k')) as [->|Hk]; simpl.
    + repeat case_decide; congruence.
    + rewrite IH. repeat case_decide; congruence.
Qed.

Variable compute_hash : Path -> option ImageHash.

Lemma hash_loop_NoDup images d :
  NoDup (map fst d) -> NoDup (map fst (hash_loop compute_hash images d)).
Proof.
  revert d. induction images as [|i images IH]; intros d Hnd; simpl; [done|].
  destruct (compute_hash i); apply IH; [|done].
  rewrite dict_assign_keys. case_decide as Hi; [done|].
  apply NoDup_app. split; [done|]. split; [|apply NoDup_singleton].
  intros x Hx ->%list_elem_of_singleton. contradiction.
Qed.

Lemma hash_loop_keys images d :
  NoDup images -> (forall i, i ∈ images -> i ∉ map fst d) ->
  map fst (hash_loop compute_hash images d) =
    map fst d ++ filter (fun i => is_Some (compute_hash i)) images.
Proof.
  revert d. induction images as [|i images IH]; intros d Hnd Hfresh; simpl.
  - by rewrite app_nil_r.
  - apply NoDup_cons in Hnd as [Hi Hnd].
    rewrite filter_cons.
    destruct (compute_hash i) as [h|] eqn:Hh.
    + rewrite decide_True by (by eexists).
      rewrite IH; [|done|].
      * rewrite dict_assign_keys, decide_False by (apply Hfresh, elem_of_cons; left; done).
        by rewrite <-app_assoc.
      * intros x Hx. rewrite dict_assign_keys, decide_False by (apply Hfresh, elem_of_cons; left; done).
        rewrite elem_of_app, list_elem_of_singleton.
        intros [Hd| ->]; [by apply (Hfresh x); [right|]|contradiction].
    + rewrite decide_False by (intros [? ?]; discriminate).
      apply IH; [done|]. intros x Hx. apply Hfresh. by right.
Qed.

Lemma hash_loop_get images d i :
  dict_get (hash_loop compute_hash images d) i =
    if decide (i ∈ images) then
      match compute_hash i with Some h => h | None => dict_get d i end
    else dict_get d i.
Proof.
  revert d. induction images as [|x images IH]; intros d; simpl; [done|].
  destruct (compute_hash x) as [h|] eqn:Hx; rewrite IH; [rewrite dict_assign_get|];
    repeat case_decide; subst; rewrite ?Hx; try done; try set_solver;
    match goal with Hm : _ ∈ _ :: _ |- _ =>
      apply elem_of_cons in Hm as [->|?]; [by rewrite Hx|contradiction] end.
Qed.

Lemma hash_loop_nil images d :
  hash_loop compute_hash images d = [] <->
    d = [] /\ Forall (fun i => compute_hash i = None) images.
Proof.
  revert d. induction images as [|i images IH]; intros d; simpl.
  - split; [intros ->; done|intros [-> _]; done].
  - destruct (compute_hash i) as [h|] eqn:Hh; rewrite IH.
    + split.
      * intros [Hd _]. destruct d as [|[? ?] ?]; simpl in Hd;
          [discriminate|case_decide; discriminate].
      * intros [_ Hf]. inversion Hf; congruence.
    + rewrite Forall_cons. naive_solver.
Qed.

(** X2.  The hash loop of [main]: for a scan that lists no path twice,
    the keys of [hashes] are the images whose hash could be computed, in
    scan order and without repetition, and each key maps to the hash of
    its own image. *)
Theorem main_hash_dict images :
  NoDup images ->
  map fst (hash_loop compute_hash images []) =
    filter (fun i => is_Some (compute_hash i)) images /\
  NoDup (map fst (hash_loop compute_hash images [])) /\
  forall i h, i ∈ images -> compute_hash i = Some h ->
    dict_get (hash_loop compute_hash images []) i = h.
Proof.
  intros Hnd. split; [|split].
  - rewrite hash_loop_keys by (done || (intros i _ Hi; inversion Hi)). done.
  - apply hash_loop_NoDup. constructor.
  - intros i h Hi Hh. rewrite hash_loop_get, decide_True, Hh by done. done.
Qed.

End Hashes.

Section Clusters.
Context {Path : Type} `{EqDecision Path}.
Implicit Types (d : list (Path * ImageHash)) (t : Z).

Lemma cluster_images_perm d t :
  NoDup (map fst d) -> concat (cluster_images d t) ≡ₚ map fst d.
Proof.
  intros Hnd. unfold cluster_images.
  rewrite cluster_loop_perm by done. simpl.
  rewrite filter_all; [done|]. intros x _ Hx. inversion Hx.
Qed.

Lemma scan_rest_shape d t a rest visited cluster :
  exists added, (scan_rest d t a rest visited cluster).1 = cluster ++ added /\
    added `sublist_of` rest /\ Forall (close d t a) added.
Proof.
  revert visited cluster.
  induction rest as [|b rest IH]; intros visited cluster; simpl.
  - exists []. rewrite app_nil_r. done.
  - case_decide.
    + destruct (IH visited cluster) as (added & -> & Hs & Hc).
      exists added. split; [done|]. split; [by apply sublist_cons|done].
    + case_decide as Hc.
      * destruct (IH (visited ++ [b]) (cluster ++ [b])) as (added & -> & Hs & Hf).
        exists (b :: added). rewrite <-app_assoc. split; [done|].
        split; [by apply sublist_skip|]. constructor; [exact Hc|exact Hf].
      * destruct (IH visited cluster) as (added & -> & Hs & Hf).
        exists added. split; [done|]. split; [by apply sublist_cons|done].
Qed.

Lemma cluster_loop_seeded d t files visited clusters :
  files `sublist_of` map fst d ->
  Forall (fun c => exists a rest, c = a :: rest /\ Forall (close d t a) rest /\
                     c `sublist_of` map fst d) clusters ->
  Forall (fun c => exists a rest, c = a :: rest /\ Forall (close d t a) rest /\
                     c `sublist_of` map fst d) (cluster_loop d t files visited clusters).
Proof.
  revert visited clusters.
  induction files as [|a rest IH]; intros visited clusters Hsub Hcs; simpl; [done|].
  assert (Hrest : rest `sublist_of` map fst d).
  { etrans; [|exact Hsub]. by apply sublist_cons. }
  case_decide; [by apply IH|].
  destruct (scan_rest d t a rest (visited ++ [a]) [a]) as [cl vis] eqn:Hs.
  apply IH; [done|]. apply Forall_app. split; [done|]. constructor; [|constructor].
  destruct (scan_rest_shape d t a rest (visited ++ [a]) [a]) as (added & Hcl & Hsa & Hf).
  rewrite Hs in Hcl. simpl in Hcl. subst cl.
  exists a, added. split; [done|]. split; [done|].
  etrans; [|exact Hsub]. by apply sublist_skip.
Qed.

Lemma hash_sub_diag (h : ImageHash) : hash_sub h h = 0%Z.
Proof.
  induction h as [|x h IH]; simpl; [done|]. rewrite IH. by destruct x.
Qed.

Lemma cluster_loop_same_hash d t a b files visited clusters :
  NoDup files -> (0 <= t)%Z -> dict_get d a = dict_get d b ->
  (a ∈ visited <-> b ∈ visited) ->
  (a ∈ visited -> exists c, c ∈ clusters /\ a ∈ c /\ b ∈ c) ->
  (a ∉ visited -> a ∈ files /\ b ∈ files) ->
  exists c, c ∈ cluster_loop d t files visited clusters /\ a ∈ c /\ b ∈ c.
Proof.
  revert visited clusters.
  induction files as [|z rest IH]; intros visited clusters Hnd Ht Hab Hvis Hin Hnot; simpl.
  - destruct (decide (a ∈ visited)) as [Ha|Ha]; [by apply Hin|].
    destruct (Hnot Ha) as [Hf _]. inversion Hf.
  - apply NoDup_cons in Hnd as [Hz Hnd].
    case_decide as Hzv.
    + apply IH; [done|done|done|done|done|].
      intros Ha. destruct (Hnot Ha) as [Ha' Hb'].
      apply elem_of_cons in Ha' as [->|Ha']; [contradiction|].
      apply elem_of_cons in Hb' as [->|Hb']; [tauto|]. done.
    + rewrite scan_rest_spec by done.
      set (P := fun x => (x ∉ visited ++ [z]) /\ close d t z x).
      assert (Hclose : close d t z a <-> close d t z b).
      { unfold close. by rewrite Hab. }
      destruct (decide (a ∈ visited)) as [Ha|Ha].
      * apply IH; [done|done|done| |intros _|].
        -- rewrite !elem_of_app. split; intros _; left; left; [by apply Hvis|exact Ha].
        -- destruct (Hin Ha) as (c & Hc & Hac & Hbc). exists c.
           split; [apply elem_of_app; by left|done].
        -- intros H. exfalso. apply H. rewrite !elem_of_app. by left; left.
      * assert (Hb : b ∉ visited) by (intros Hb; by apply Ha, Hvis).
        destruct (Hnot Ha) as [Ha' Hb'].
        assert (Hsel : forall x, x ∈ rest -> x ≠ z -> x ∉ visited ->
                  (x ∈ filter P rest <-> close d t z x)).
        { intros x Hx Hxz Hxv. rewrite list_elem_of_filter. unfold P.
          rewrite elem_of_app, list_elem_of_singleton. tauto. }
        destruct (decide (a = z)) as [->|Haz]; [|destruct (decide (b = z)) as [->|Hbz]].
        -- (* [a] is the seed *)
           apply IH; [done|done|done| |intros _|].
           ++ rewrite !elem_of_app, !list_elem_of_singleton. split; intros _;
                [|left; right; done].
              destruct (decide (b = z)) as [->|Hbz]; [left; right; done|].
              right. apply elem_of_cons in Hb' as [->|Hb']; [contradiction|].
              apply Hsel; [done|done|done|].
              unfold close. rewrite Hab, hash_sub_diag. done.
           ++ exists ([z] ++ filter P rest). split; [apply elem_of_app; right; left|].
              split; [left|].
              destruct (decide (b = z)) as [->|Hbz]; [left|].
              right. apply elem_of_cons in Hb' as [->|Hb']; [contradiction|].
              apply Hsel; [done|done|done|].
              unfold close. rewrite Hab, hash_sub_diag. done.
           ++ intros H. exfalso. apply H. rewrite !elem_of_app. left; right. left.
        -- (* [b] is the seed *)
           apply elem_of_cons in Ha' as [->|Ha']; [contradiction|].
           assert (Haf : a ∈ filter P rest).
           { apply Hsel; [done|done|done|]. unfold close. rewrite Hab, hash_sub_diag. done. }
           apply IH; [done|done|done| |intros _|].
           ++ rewrite !elem_of_app, !list_elem_of_singleton. split; intros _;
                [left; right; done|right; done].
           ++ exists ([z] ++ filter P rest). split; [apply elem_of_app; right; left|].
              split; [right; done|left].
           ++ intros H. exfalso. apply H. rewrite !elem_of_app. right; done.
        -- (* neither is the seed: both are tested against it alike *)
           apply elem_of_cons in Ha' as [->|Ha']; [contradiction|].
           apply elem_of_cons in Hb' as [->|Hb']; [contradiction|].
           destruct (decide (close d t z a)) as [Hc|Hc].
           ++ assert (Hafa : a ∈ filter P rest) by (apply Hsel; done).
              assert (Hbfb : b ∈ filter P rest) by (apply Hsel; [done|done|done|by apply Hclose]).
              apply IH; [done|done|done| |intros _|].
              ** rewrite !elem_of_app. split; intros _; right; done.
              ** exists ([z] ++ filter P rest). split; [apply elem_of_app; right; left|].
                 split; right; done.
              ** intros H. exfalso. apply H. rewrite !elem_of_app. right; done.
           ++ assert (Hafa : a ∉ filter P rest) by (rewrite Hsel; done).
              assert (Hbfb : b ∉ filter P rest) by (rewrite Hsel; [|done..]; by rewrite <-Hclose).
              apply IH; [done|done|done| |intros [[H|H%list_elem_of_singleton]%elem_of_app|H]%elem_of_app; by exfalso|].
              ** rewrite !elem_of_app, !list_elem_of_singleton. naive_solver.
              ** intros _. done.
Qed.

(** X3.  Every cluster of [cluster_images] starts with its seed, every
    other member is within [threshold] of that seed, and the members keep
    the order of the hash dict.  Members are compared with the seed only,
    not with each other: two members of one cluster can be farther apart
    than [threshold] (three 4-bit hashes, threshold 1: the seed is one bit
    away from each of the two others, which differ in two bits). *)
Theorem cluster_images_seeded d t :
  Forall (fun c => exists a rest, c = a :: rest /\ Forall (close d t a) rest /\
                     c `sublist_of` map fst d) (cluster_images d t) /\
  exists (d' : list (nat * ImageHash)) (t' : Z) (c : list nat) (a b : nat),
    c ∈ cluster_images d' t' /\ a ∈ c /\ b ∈ c /\ ~ close d' t' a b.
Proof.
  split; [apply cluster_loop_seeded; [done|constructor]|].
  exists [(1, [false; false; false; false]); (2, [false; false; false; true]);
          (3, [true; false; false; false])], 1%Z, [1; 2; 3], 2, 3.
  split_and!; apply (bool_decide_unpack _); vm_compute; reflexivity.
Qed.

(** X4.  With a nonnegative threshold, two hashed images whose hashes are
    equal always land in one cluster. *)
Theorem cluster_images_same_hash d t a b :
  NoDup (map fst d) -> (0 <= t)%Z -> a ∈ map fst d -> b ∈ map fst d ->
  dict_get d a = dict_get d b ->
  exists c, c ∈ cluster_images d t /\ a ∈ c /\ b ∈ c.
Proof.
  intros Hnd Ht Ha Hb Hab. unfold cluster_images.
  apply cluster_loop_same_hash; try done.
  - split; intros H; inversion H.
  - intros H; inversion H.
Qed.

End Clusters.

Section Sort.
Implicit Types (l : list cluster_entry) (c : cluster_entry).

Lemma insert_by_count_perm c l : insert_by_count c l ≡ₚ c :: l.
Proof.
  induction l as [|c' l IH]; simpl; [done|].
  case_decide; [done|]. rewrite IH. apply Permutation_swap.
Qed.

Lemma sort_by_count_perm_gen l acc :
  fold_left (fun acc c => insert_by_count c acc) l acc ≡ₚ acc ++ l.
Proof.
  revert acc. induction l as [|c l IH]; intros acc; simpl.
  - by rewrite app_nil_r.
  - rewrite IH, insert_by_count_perm. by rewrite <-Permutation_middle.
Qed.

Lemma insert_by_count_sorted c l :
  Sorted (fun a b => count b <= count a) l ->
  Sorted (fun a b => count b <= count a) (insert_by_count c l).
Proof.
  induction l as [|c' l IH]; intros Hs; simpl.
  - repeat constructor.
  - apply Sorted_inv in Hs as [Hs Hhd].
    case_decide as Hlt.
    + constructor; [constructor; [exact Hs|exact Hhd]|constructor; lia].
    + constructor; [by apply IH|].
      destruct l as [|c'' l]; simpl.
      * constructor. lia.
      * case_decide; constructor; [lia|]. by inversion Hhd.
Qed.

Lemma sort_by_count_sorted_gen l acc :
  Sorted (fun a b => count b <= count a) acc ->
  Sorted (fun a b => count b <= count a)
    (fold_left (fun acc c => insert_by_count c acc) l acc).
Proof.
  revert acc. induction l as [|c l IH]; intros acc Hs; simpl; [done|].
  apply IH. by apply insert_by_count_sorted.
Qed.

Lemma sorted_desc_strong l :
  Sorted (fun a b => count b <= count a) l ->
  StronglySorted (fun a b => count b <= count a) l.
Proof. apply Sorted_StronglySorted. intros x y z; lia. Qed.

Lemma filter_none {A} (P : A -> Prop) `{!forall x, Decision (P x)} (l : list A) :
  (forall x, x ∈ l -> ~ P x) -> filter P l = [].
Proof.
  induction l as [|x l IH]; intros Hn; [done|].
  rewrite filter_cons_False by (apply Hn; apply elem_of_cons; by left).
  apply IH. intros y Hy. apply Hn. apply elem_of_cons. by right.
Qed.

Lemma insert_by_count_filter c l n :
  Sorted (fun a b => count b <= count a) l ->
  filter (fun x => count x = n) (insert_by_count c l) =
    filter (fun x => count x = n) l ++ filter (fun x => count x = n) [c].
Proof.
  induction l as [|c' l IH]; intros Hs; simpl; [done|].
  apply sorted_desc_strong in Hs as Hss.
  apply StronglySorted_inv in Hss as [_ Hall].
  apply Sorted_inv in Hs as [Hs _].
  rewrite Forall_forall in Hall.
  case_decide as Hlt.
  - destruct (decide (count c = n)) as [Hn|Hn].
    + assert (Hnil : filter (fun x => count x = n) (c' :: l) = []).
      { apply filter_none. intros y Hy. apply elem_of_cons in Hy as [->|Hy]; [lia|].
        specialize (Hall y Hy). lia. }
      rewrite filter_cons_True by done. rewrite Hnil.
      rewrite filter_cons_True by done. done.
    + rewrite filter_cons_False by done.
      rewrite (filter_cons_False _ c []) by done. by rewrite app_nil_r.
  - rewrite !filter_cons, IH by done. case_decide; done.
Qed.

Lemma sort_by_count_filter_gen l acc n :
  Sorted (fun a b => count b <= count a) acc ->
  filter (fun x => count x = n) (fold_left (fun acc c => insert_by_count c acc) l acc) =
    filter (fun x => count x = n) acc ++ filter (fun x => count x = n) l.
Proof.
  revert acc. induction l as [|c l IH]; intros acc Hs; simpl.
  - by rewrite app_nil_r.
  - rewrite IH by (by apply insert_by_count_sorted).
    rewrite insert_by_count_filter by done.
    rewrite <-app_assoc. f_equal. rewrite (filter_cons _ c l).
    rewrite (filter_cons _ c []). simpl. by case_decide.
Qed.

Lemma sorted_multi_prefix l :
  Sorted (fun a b => count b <= count a) l ->
  multi_clusters l = take (length (multi_clusters l)) l.
Proof.
  unfold multi_clusters.
  induction l as [|c l IH]; intros Hs; [done|].
  apply sorted_desc_strong in Hs as Hss.
  apply StronglySorted_inv in Hss as [_ Hall]. rewrite Forall_forall in Hall.
  apply Sorted_inv in Hs as [Hs _].
  rewrite filter_cons. case_decide as Hc.
  - simpl. f_equal. by apply IH.
  - rewrite filter_none; [done|]. intros y Hy. specialize (Hall y Hy). lia.
Qed.

(** X5.  [report_clusters.sort(key=lambda c: c["count"], reverse=True)]
    permutes the entries, orders them by decreasing count, and keeps the
    entries of each count in their original order. *)
Theorem sort_by_count_stable l :
  sort_by_count l ≡ₚ l /\
  Sorted (fun a b => count b <= count a) (sort_by_count l) /\
  forall n, filter (fun c => count c = n) (sort_by_count l) =
            filter (fun c => count c = n) l.
Proof.
  unfold sort_by_count. split; [|split].
  - apply sort_by_count_perm_gen.
  - apply sort_by_count_sorted_gen. constructor.
  - intros n. apply sort_by_count_filter_gen. constructor.
Qed.

End Sort.

Section Report.
Context {Path : Type} `{EqDecision Path}.
Variable compute_hash : Path -> option ImageHash.
Variable st_size : Path -> Z.
Variable name : Path -> string.

Lemma report_loop_spec (cs : list (list Path)) ups n rc :
  Forall (fun c => c <> []) cs ->
  exists bes : list (Path * cluster_entry),
    report_loop st_size name cs ups n rc =
      Some (ups ++ map fst bes,
            n + sum_list_with (fun be => length (duplicates be.2)) bes,
            rc ++ map snd bes) /\
    Forall2 (fun c be => pick_best st_size c = Some be.1 /\
               be.2 = {| selected := name be.1;
                         selected_size := format_size (st_size be.1);
                         duplicates := map name (filter (fun f => f ≠ be.1) c);
                         count := length c |}) cs bes.
Proof.
  revert ups n rc. induction cs as [|c cs IH]; intros ups n rc Hne; simpl.
  - exists []. simpl. rewrite !app_nil_r, Nat.add_0_r. split; [done|constructor].
  - apply Forall_cons in Hne as [Hc Hne].
    destruct c as [|x xs]; [done|].
    destruct (pick_best st_size (x :: xs)) as [best|] eqn:Hb; [|done]. simpl.
    edestruct IH as (bes & -> & Hf); [exact Hne|].
    eexists ((best, _) :: bes). split; cycle 1.
    + constructor; [|exact Hf]. simpl. split; [done|reflexivity].
    + simpl. rewrite <-!app_assoc. simpl. rewrite length_map. do 3 f_equal. lia.
Qed.

Lemma main_Report_inv src t images ups r :
  main compute_hash st_size name src t images = Report ups r ->
  exists bes : list (Path * cluster_entry),
    hash_loop compute_hash images [] <> [] /\ ups = map fst bes /\
    r = {| source := src;
           report_total_scanned := length (hash_loop compute_hash images []);
           report_unique_count := length (map fst bes);
           report_duplicate_count := sum_list_with (fun be => length (duplicates be.2)) bes;
           threshold := t;
           clusters := sort_by_count (map snd bes) |} /\
    Forall2 (fun c be => pick_best st_size c = Some be.1 /\
               be.2 = {| selected := name be.1;
                         selected_size := format_size (st_size be.1);
                         duplicates := map name (filter (fun f => f ≠ be.1) c);
                         count := length c |}) (cluster_images (hash_loop compute_hash images []) t) bes.
Proof.
  intros Hm. unfold main in Hm. destruct images as [|i images]; [discriminate|].
  set (hashes := hash_loop compute_hash (i :: images) []) in *.
  destruct (report_loop_spec (cluster_images hashes t) [] 0 []
              (cluster_images_nonempty hashes t)) as (bes & Hr & Hf).
  rewrite Hr in Hm. simpl in Hm.
  case_decide as Hz; [discriminate|].
  injection Hm as <- <-. exists bes. split; [by intros ->|]. done.
Qed.

Lemma elem_of_map_iff {A B} (f : A -> B) (l : list A) (y : B) :
  y ∈ map f l <-> exists x, y = f x /\ x ∈ l.
Proof.
  induction l as [|x l IH]; simpl.
  - split; [intros H; inversion H|intros (? & _ & H); inversion H].
  - rewrite elem_of_cons, IH. split.
    + intros [->|(z & -> & Hz)]; [exists x; split; [done|by left]|].
      exists z. split; [done|by right].
    + intros (z & -> & [->|Hz]%elem_of_cons); [by left|right; by exists z].
Qed.

Lemma Forall2_sum {A B} (P : A -> B -> Prop) (f : A -> nat) (g : B -> nat) l k :
  Forall2 P l k -> (forall x y, P x y -> g y = f x) ->
  sum_list_with g k = sum_list_with f l.
Proof. intros HP Hfg. induction HP; simpl; [done|]. erewrite Hfg by done. lia. Qed.

Lemma sum_list_with_filter {A} (P : A -> Prop) `{!forall x, Decision (P x)}
    (f : A -> nat) (l : list A) :
  (forall x, x ∈ l -> ~ P x -> f x = 0) ->
  sum_list_with f (filter P l) = sum_list_with f l.
Proof.
  induction l as [|x l IH]; intros H0; [done|].
  rewrite filter_cons. simpl.
  assert (IH' : sum_list_with f (filter P l) = sum_list_with f l).
  { apply IH. intros y Hy. apply H0. by right. }
  case_decide as Hx; simpl; rewrite IH'; [done|].
  rewrite (H0 x) by (done || by left). done.
Qed.

Lemma Forall2_filter_length {A B} (P : A -> B -> Prop) (p : A -> Prop) (q : B -> Prop)
    `{!forall x, Decision (p x)} `{!forall y, Decision (q y)} l k :
  Forall2 P l k -> (forall x y, P x y -> (p x <-> q y)) ->
  length (filter q k) = length (filter p l).
Proof.
  intros HP Hpq. induction HP as [|x y l k Hxy HP IH]; [done|].
  rewrite !filter_cons. specialize (Hpq x y Hxy).
  destruct (decide (p x)), (decide (q y)); simpl; naive_solver.
Qed.

Lemma main_clusters_facts src t images ups r :
  main compute_hash st_size name src t images = Report ups r ->
  exists bes : list (Path * cluster_entry),
    let cs := cluster_images (hash_loop compute_hash images []) t in
    ups = map fst bes /\ clusters r = sort_by_count (map snd bes) /\
    report_total_scanned r = length (hash_loop compute_hash images []) /\
    report_unique_count r = length bes /\
    report_duplicate_count r = sum_list_with (fun be => length (duplicates be.2)) bes /\
    Forall (fun c => c <> [] /\ NoDup c) cs /\
    sum_list_with length cs = length (hash_loop compute_hash images []) /\
    Forall2 (fun c be => pick_best st_size c = Some be.1 /\ be.1 ∈ c /\
               be.2 = {| selected := name be.1;
                         selected_size := format_size (st_size be.1);
                         duplicates := map name (filter (fun f => f ≠ be.1) c);
                         count := length c |}) cs bes.
Proof.
  intros Hm. destruct (main_Report_inv src t images ups r Hm) as (bes & Hne & -> & -> & Hf).
  exists bes. simpl.
  set (d := hash_loop compute_hash images []).
  assert (Hnd : NoDup (map fst d)) by (apply hash_loop_NoDup; constructor).
  split; [done|]. split; [done|]. split; [done|]. split; [by rewrite length_map|].
  split; [done|]. split; [|split].
  - apply Forall_and. split; [apply cluster_images_nonempty|].
    apply NoDup_concat_Forall. rewrite cluster_images_perm by done. exact Hnd.
  - rewrite <-length_concat_sum, cluster_images_perm, length_map by done. done.
  - eapply Forall2_impl; [exact Hf|]. intros c be [Hb He].
    split; [done|]. split; [by eapply pick_best_elem|done].
Qed.

Lemma sum_list_with_map {A B} (f : B -> nat) (g : A -> B) (l : list A) :
  sum_list_with f (map g l) = sum_list_with (fun x => f (g x)) l.
Proof. induction l as [|x l IH]; simpl; [done|]. by rewrite IH. Qed.

Lemma Forall2_Forall_r {A B} (P : A -> B -> Prop) (Q : A -> Prop) (R : B -> Prop) l k :
  Forall2 P l k -> Forall Q l -> (forall x y, P x y -> Q x -> R y) -> Forall R k.
Proof.
  intros HP. induction HP; intros HQ HR; [constructor|].
  inversion HQ; subst. constructor; [by eapply HR|by apply IHHP].
Qed.

Lemma Forall_map_iff {A B} (P : B -> Prop) (f : A -> B) (l : list A) :
  Forall P (map f l) <-> Forall (fun x => P (f x)) l.
Proof. induction l as [|x l IH]; simpl; [split; constructor|]. by rewrite !Forall_cons, IH. Qed.

Lemma sort_by_count_perm l : sort_by_count l ≡ₚ l.
Proof. apply sort_by_count_perm_gen. Qed.

(** X6.  The report of [main]: [unique_count] is the number of picks and
    of clusters, the cluster counts add up to [total_scanned], each
    cluster lists [count - 1] duplicates, and [duplicate_count] is the
    total number of listed duplicates. *)
Theorem main_report_counts src t images ups r :
  main compute_hash st_size name src t images = Report ups r ->
  length ups = report_unique_count r /\
  report_unique_count r = length (clusters r) /\
  sum_list_with count (clusters r) = report_total_scanned r /\
  Forall (fun e => count e = S (length (duplicates e))) (clusters r) /\
  report_duplicate_count r = sum_list_with (fun e => length (duplicates e)) (clusters r).
Proof.
  intros Hm.
  destruct (main_clusters_facts src t images ups r Hm)
    as (bes & -> & Hcl & Htot & Huniq & Hdup & Hcs & Hsum & Hf).
  rewrite Hcl, Htot, Huniq, Hdup, !sort_by_count_perm.
  split; [by rewrite length_map|]. split; [by rewrite length_map|].
  split; [|split].
  - rewrite <-Hsum, sum_list_with_map. eapply Forall2_sum; [exact Hf|].
    intros c be (_ & _ & ->). done.
  - apply Forall_map_iff. eapply Forall2_Forall_r; [exact Hf|exact Hcs|].
    intros c be (_ & Hin & ->) [Hne Hnd]. simpl.
    rewrite length_map, length_filter_ne by done.
    destruct c; [done|simpl; lia].
  - by rewrite sum_list_with_map.
Qed.

(** X7.  The duplicate groups shown by [main], [generate_review.py] and
    the review page ([count > 1]) are the first entries of the sorted
    report, one per cluster of two or more images, and their duplicates
    add up to [duplicate_count]. *)
Theorem main_duplicate_groups src t images ups r :
  main compute_hash st_size name src t images = Report ups r ->
  Sorted (fun a b => count b <= count a) (clusters r) /\
  multi_clusters (clusters r) = take (length (multi_clusters (clusters r))) (clusters r) /\
  length (multi_clusters (clusters r)) =
    length (filter (fun c => 1 < length c)
              (cluster_images (hash_loop compute_hash images []) t)) /\
  sum_list_with (fun e => length (duplicates e)) (multi_clusters (clusters r)) =
    report_duplicate_count r.
Proof.
  intros Hm.
  destruct (main_clusters_facts src t images ups r Hm)
    as (bes & -> & Hcl & Htot & Huniq & Hdup & Hcs & Hsum & Hf).
  assert (Hsorted : Sorted (fun a b => count b <= count a) (clusters r)).
  { rewrite Hcl. apply sort_by_count_sorted_gen. constructor. }
  assert (Hdup1 : Forall (fun e => count e = S (length (duplicates e))) (map snd bes)).
  { apply Forall_map_iff. eapply Forall2_Forall_r; [exact Hf|exact Hcs|].
    intros c be (_ & Hin & ->) [Hne Hnd]. simpl.
    rewrite length_map, length_filter_ne by done.
    destruct c; [done|simpl; lia]. }
  split; [done|]. split; [by apply sorted_multi_prefix|]. split.
  - unfold multi_clusters. rewrite Hcl, sort_by_count_perm.
    transitivity (length (filter (fun be => 1 < count be.2) bes)).
    + clear -bes. induction bes as [|be bes IH]; [done|].
      simpl. rewrite !filter_cons. case_decide; simpl; [by rewrite IH|done].
    + eapply Forall2_filter_length; [exact Hf|].
      intros c be (_ & _ & ->). done.
  - rewrite Hdup. unfold multi_clusters. rewrite Hcl, sort_by_count_perm.
    rewrite sum_list_with_filter.
    + by rewrite sum_list_with_map.
    + intros e He Hn. rewrite Forall_forall in Hdup1. specialize (Hdup1 e He). lia.
Qed.

(** X8.  Each report entry comes from a cluster and its pick: [selected]
    is the name of the pick and [count] the cluster size.  Only names are
    recorded, so [selected] appears among [duplicates] exactly when
    another file of the cluster has the same name as the pick. *)
Theorem main_selected_name src t images ups r e :
  main compute_hash st_size name src t images = Report ups r ->
  e ∈ clusters r ->
  exists c best,
    c ∈ cluster_images (hash_loop compute_hash images []) t /\
    pick_best st_size c = Some best /\
    selected e = name best /\ count e = length c /\
    (selected e ∈ duplicates e <->
       exists f, f ∈ c /\ f <> best /\ name f = name best).
Proof.
  intros Hm He.
  destruct (main_clusters_facts src t images ups r Hm)
    as (bes & -> & Hcl & Htot & Huniq & Hdup & Hcs & Hsum & Hf).
  rewrite Hcl, sort_by_count_perm in He.
  apply elem_of_map_iff in He as (be & -> & Hbe).
  apply list_elem_of_lookup_1 in Hbe as [k Hk].
  destruct (Forall2_lookup_r _ _ _ _ _ Hf Hk) as (c & Hc & Hb & Hin & Heq).
  exists c, be.1. rewrite Heq. simpl.
  split; [by eapply list_elem_of_lookup_2|]. split; [done|]. split; [done|]. split; [done|].
  rewrite elem_of_map_iff. split.
  - intros (f & Hn & Hff). apply list_elem_of_filter in Hff as [Hne Hfc].
    exists f. done.
  - intros (f & Hfc & Hne & Hn). exists f. split; [done|].
    by apply list_elem_of_filter.
Qed.

(** X9.  How [main] ends: an empty scan exits without a report; when
    no scanned image can be hashed, [100 * len(unique_picks) / len(hashes)]
    raises [ZeroDivisionError]; as soon as one image is hashed there is a
    report. *)
Theorem main_outcome src t images :
  (images = [] /\ main compute_hash st_size name src t images = NoImages) \/
  (images <> [] /\ Forall (fun i => compute_hash i = None) images /\
     main compute_hash st_size name src t images = MainError "ZeroDivisionError") \/
  (Exists (fun i => is_Some (compute_hash i)) images /\
     exists ups r, main compute_hash st_size name src t images = Report ups r).
Proof.
  destruct images as [|i images]; [by left|right].
  destruct (decide (Forall (fun i => compute_hash i = None) (i :: images))) as [Hn|Hn].
  - left. split; [done|]. split; [done|].
    assert (Hnil : hash_loop compute_hash (i :: images) [] = []) by (by apply hash_loop_nil).
    unfold main. rewrite Hnil. reflexivity.
  - right. split.
    + apply not_Forall_Exists in Hn; [|intros x; apply _].
      eapply Exists_impl; [exact Hn|].
      intros x Hx. simpl in Hx. destruct (compute_hash x); [by eexists|done].
    + assert (Hne : hash_loop compute_hash (i :: images) [] <> []).
      { rewrite hash_loop_nil. tauto. }
      unfold main.
      set (d := hash_loop compute_hash (i :: images) []) in *.
      destruct (report_loop_spec (cluster_images d t) [] 0 []
                  (cluster_images_nonempty d t)) as (bes & Hr & _).
      rewrite Hr. simpl.
      rewrite decide_False by (intros Hl; apply Hne; by apply length_zero_iff_nil).
      by do 2 eexists.
Qed.

End Report.

(** *** [format_size] *)

Lemma round_half_even_top (num den : Z) :
  (0 < den)%Z -> (20479 * den <= 2 * num < 20480 * den)%Z ->
  round_half_even num den = 10240%Z.
Proof.
  intros Hd Hr. unfold round_half_even.
  assert (Hq : (num / den = 10239)%Z).
  { symmetry. apply (Z.div_unique num den 10239 (num - 10239 * den)); lia. }
  assert (Hm : (num mod den = num - 10239 * den)%Z).
  { symmetry. apply (Z.mod_unique num den 10239); lia. }
  rewrite Hq, Hm.
  rewrite decide_False by lia.
  destruct (decide (den < 2 * (num - 10239 * den))%Z); [done|]. reflexivity.
Qed.

Ltac qcmp := match goal with
  | |- context [Qlt_le_dec ?x ?y] =>
      let Hc := fresh "Hc" in
      destruct (Qlt_le_dec x y) as [Hc|Hc]; unfold Qlt, Qle in Hc; simpl in Hc
  end.

(** X10.  [format_size] prints ["1024.0 KB"] (resp. MB, GB) for the
    sizes just below 1 MB (resp. GB, TB) that round up at one decimal:
    the unit is chosen before rounding. *)
Theorem format_size_1024 (k : nat) (u : string) (n : Z) :
  ["KB"; "MB"; "GB"] !! k = Some u ->
  (20 * 1024 ^ (Z.of_nat k + 2) - 1024 ^ (Z.of_nat k + 1) <= 20 * n <
     20 * 1024 ^ (Z.of_nat k + 2))%Z ->
  format_size n = "1024.0 " +:+ u.
Proof.
  intros Hu Hn.
  destruct k as [|[|[|k]]]; simpl in Hu; try discriminate; injection Hu as <-;
    simpl in Hn; unfold format_size, format_size_loop.
  - qcmp; [lia|]. qcmp; [|lia]. unfold format_1f. qcmp; [lia|].
    unfold format_1f_nonneg. simpl. rewrite round_half_even_top by lia. reflexivity.
  - qcmp; [lia|]. qcmp; [lia|]. qcmp; [|lia]. unfold format_1f. qcmp; [lia|].
    unfold format_1f_nonneg. simpl. rewrite round_half_even_top by lia. reflexivity.
  - qcmp; [lia|]. qcmp; [lia|]. qcmp; [lia|]. qcmp; [|lia]. unfold format_1f. qcmp; [lia|].
    unfold format_1f_nonneg. simpl. rewrite round_half_even_top by lia. reflexivity.
Qed.

Lemma string_append_assoc (a b c : string) : (a +:+ b) +:+ c = a +:+ b +:+ c.
Proof.
  induction a as [|x a IH]; [done|].
  change (String x ((a +:+ b) +:+ c) = String x (a +:+ b +:+ c)). by rewrite IH.
Qed.

(** X11.  [format_size] on a size below 1024 bytes prints the integer
    with one decimal and the unit [B]. *)
Theorem format_size_bytes (n : Z) :
  (0 <= n < 1024)%Z -> format_size n = pretty n +:+ ".0 B".
Proof.
  intros Hn. unfold format_size, format_size_loop.
  qcmp; [|lia]. unfold format_1f. qcmp; [lia|].
  unfold format_1f_nonneg, round_half_even. simpl.
  rewrite Z.div_1_r, Z.mod_1_r, decide_True by lia.
  rewrite (Z.mul_comm 10 n), Z.div_mul, Z.mod_mul by lia.
  rewrite !string_append_assoc. reflexivity.
Qed.

(** *** Witnesses *)

Import Samples.

Lemma main_hash_dict_witness :
  map fst (hash_loop hashW imagesW []) = filter (fun i => is_Some (hashW i)) imagesW /\
  NoDup (map fst (hash_loop hashW imagesW [])) /\
  forall i h, i ∈ imagesW -> hashW i = Some h -> dict_get (hash_loop hashW imagesW []) i = h.
Proof.
  apply main_hash_dict. apply (bool_decide_unpack _). vm_compute. reflexivity.
Defined.

Lemma cluster_images_same_hash_witness :
  exists c, c ∈ cluster_images (hash_loop hashW imagesW []) 0 /\ 1 ∈ c /\ 4 ∈ c.
Proof.
  apply cluster_images_same_hash;
    (apply (bool_decide_unpack _); vm_compute; reflexivity) || (vm_compute; reflexivity) || lia.
Defined.

Lemma main_report_counts_witness :
  exists ups r, main hashW sizeW nameW "/photos" 1 imagesW = Report ups r /\
  length ups = report_unique_count r /\
  report_unique_count r = length (clusters r) /\
  sum_list_with count (clusters r) = report_total_scanned r /\
  Forall (fun e => count e = S (length (duplicates e))) (clusters r) /\
  report_duplicate_count r = sum_list_with (fun e => length (duplicates e)) (clusters r).
Proof.
  eexists _, _. split; [vm_compute; reflexivity|].
  apply (main_report_counts hashW sizeW nameW "/photos" 1 imagesW). vm_compute. reflexivity.
Defined.

Lemma main_duplicate_groups_witness :
  exists ups r, main hashW sizeW nameW "/photos" 1 imagesW = Report ups r /\
  Sorted (fun a b => count b <= count a) (clusters r) /\
  multi_clusters (clusters r) = take (length (multi_clusters (clusters r))) (clusters r) /\
  length (multi_clusters (clusters r)) =
    length (filter (fun c => 1 < length c) (cluster_images (hash_loop hashW imagesW []) 1)) /\
  sum_list_with (fun e => length (duplicates e)) (multi_clusters (clusters r)) =
    report_duplicate_count r.
Proof.
  eexists _, _. split; [vm_compute; reflexivity|].
  eapply (main_duplicate_groups hashW sizeW nameW "/photos" 1 imagesW). vm_compute. reflexivity.
Defined.


Lemma main_selected_name_witness :
  exists ups r, main hashW sizeW nameW "/photos" 1 imagesW = Report ups r /\
  entryW ∈ clusters r /\
  exists c best,
    c ∈ cluster_images (hash_loop hashW imagesW []) 1 /\
    pick_best sizeW c = Some best /\
    selected entryW = nameW best /\ count entryW = length c /\
    (selected entryW ∈ duplicates entryW <-> exists f, f ∈ c /\ f <> best /\ nameW f = nameW best).
Proof.
  eexists _, _. split; [vm_compute; reflexivity|].
  split; [vm_compute; apply elem_of_cons; left; reflexivity|].
  eapply (main_selected_name hashW sizeW nameW "/photos" 1 imagesW);
    [vm_compute; reflexivity|].
  vm_compute. apply elem_of_cons; left; reflexivity.
Defined.

Lemma format_size_1024_witness : format_size 1048575 = "1024.0 KB".
Proof. apply (format_size_1024 0 "KB" 1048575); [reflexivity|simpl; lia]. Defined.

Lemma format_size_bytes_witness : format_size 1023 = pretty 1023%Z +:+ ".0 B".
Proof. apply format_size_bytes. lia. Defined.

End DedupMainFacts.

(* ------------------------------------------------------------------ *)
(** ** Properties of the trash manager *)

Module TrashFacts.
Import Trash TrashSpec.

Section Exec.
Context {A B : Type}.

Lemma exec_ret (a : A) s : exec (ret a) s (Ok a) s.
Proof. by exists []. Qed.

Lemma exec_gets (f : state -> A) s : exec (gets f) s (Ok (f s)) s.
Proof. by exists []. Qed.

Lemma exec_step (f : state -> state) s : exec (step f) s (Ok tt) (f s).
Proof. by eexists. Qed.

Lemma exec_bind_ok (m : M A) (k : A -> M B) s a s1 r s2 :
  exec m s (Ok a) s1 -> exec (k a) s1 r s2 -> exec (bind m k) s r s2.
Proof.
  intros [tr1 H1] [tr2 H2]. exists (tr1 ++ tr2).
  unfold bind. rewrite H1, H2. done.
Qed.

Lemma exec_bind_exc (m : M A) (k : A -> M B) s e s1 :
  exec m s (Exc e) s1 -> exec (bind m k) s (Exc e) s1.
Proof. intros [tr1 H1]. exists tr1. unfold bind. by rewrite H1. Qed.

Lemma exec_bind_inv (m : M A) (k : A -> M B) s r s2 :
  exec (bind m k) s r s2 ->
  (exists a s1, exec m s (Ok a) s1 /\ exec (k a) s1 r s2) \/
  (exists e, r = Exc e /\ exec m s (Exc e) s2).
Proof.
  intros [tr H]. unfold bind in H.
  destruct (m s) as [[tr1 [a|e]] s1] eqn:Hm.
  - left. destruct (k a s1) as [[tr2 r2] s3] eqn:Hk. injection H as <- <- <-.
    exists a, s1. split; [by exists tr1|by exists tr2].
  - right. injection H as <- <- <-. exists e. split; [done|by exists tr1].
Qed.

Lemma exec_try_ok (body : M A) h s a s1 :
  exec body s (Ok a) s1 -> exec (try_except body h) s (Ok a) s1.
Proof. intros [tr H]. exists tr. unfold try_except. by rewrite H. Qed.

Lemma exec_try_exc (body : M A) h s e s1 r s2 :
  exec body s (Exc e) s1 -> exec (h e) s1 r s2 -> exec (try_except body h) s r s2.
Proof.
  intros [tr1 H1] [tr2 H2]. exists (tr1 ++ tr2).
  unfold try_except. by rewrite H1, H2.
Qed.

Lemma exec_det (m : M A) s r1 s1 r2 s2 :
  exec m s r1 s1 -> exec m s r2 s2 -> r1 = r2 /\ s1 = s2.
Proof. intros [tr1 H1] [tr2 H2]. rewrite H1 in H2. by injection H2 as _ -> ->. Qed.

End Exec.

(** *** Strings: candidate names are distinct and never [manifest.json] *)

Lemma has_underscore_app_l (a b : string) :
  has_underscore b = true -> has_underscore (a +:+ b) = true.
Proof.
  induction a as [|c a IH]; simpl; [done|]. intros Hb. by rewrite IH, orb_true_r.
Qed.

Lemma length_string_app (a b : string) :
  String.length (a +:+ b) = String.length a + String.length b.
Proof. induction a as [|c a IH]; simpl; [done|]. by rewrite IH. Qed.

Lemma string_app_inj_r (a b c : string) : a +:+ c = b +:+ c -> a = b.
Proof.
  revert b. induction a as [|x a IH]; intros b H.
  - destruct b as [|y b]; [done|]. exfalso.
    apply (f_equal String.length) in H.
    rewrite !length_string_app in H. simpl in H. lia.
  - destruct b as [|y b].
    + exfalso. apply (f_equal String.length) in H.
      rewrite !length_string_app in H. simpl in H. lia.
    + simpl in H. injection H as -> H. f_equal. by apply IH.
Qed.

Lemma NoDup_map_injective {X Y} (f : X -> Y) (l : list X) :
  NoDup l -> (forall x y, f x = f y -> x = y) -> NoDup (map f l).
Proof.
  intros Hnd Hinj. induction Hnd as [|x l Hx Hnd IH]; simpl; constructor; [|done].
  intros Hin. apply list_elem_of_In, in_map_iff in Hin as [y [Hy Hin]].
  apply Hinj in Hy. subst. by apply Hx, list_elem_of_In.
Qed.

Section Probe.
Variable TRASH_DIR : string.

Lemma candidate_inj (stem suffix : string) (k1 k2 : nat) :
  candidate TRASH_DIR stem suffix k1 = candidate TRASH_DIR stem suffix k2 -> k1 = k2.
Proof.
  unfold candidate. intros [= H].
  apply (inj (String.app stem)) in H. apply (inj (String.app "_")) in H.
  apply string_app_inj_r in H. by apply (inj pretty) in H.
Qed.

Lemma candidate_dir (stem suffix : string) (k : nat) :
  (candidate TRASH_DIR stem suffix k).1 = TRASH_DIR.
Proof. done. Qed.

Lemma candidate_not_manifest (stem suffix : string) (k : nat) :
  candidate TRASH_DIR stem suffix k <> manifest_path TRASH_DIR.
Proof.
  unfold candidate, manifest_path. intros [= H].
  assert (Hu : has_underscore (stem +:+ "_" +:+ pretty k +:+ suffix) = true).
  { apply has_underscore_app_l. done. }
  rewrite H in Hu. discriminate.
Qed.

Lemma probe_dir fs stem suffix fuel counter :
  (probe TRASH_DIR fs stem suffix fuel counter).1 = TRASH_DIR.
Proof.
  revert counter. induction fuel as [|fuel IH]; intros counter; simpl; [done|].
  case_decide; [apply IH|done].
Qed.

Lemma probe_not_manifest fs stem suffix fuel counter :
  probe TRASH_DIR fs stem suffix fuel counter <> manifest_path TRASH_DIR.
Proof.
  revert counter. induction fuel as [|fuel IH]; intros counter; simpl;
    [apply candidate_not_manifest|].
  case_decide; [apply IH|apply candidate_not_manifest].
Qed.

Lemma probe_spec fs stem suffix fuel counter :
  (exists k, counter <= k < counter + fuel /\
     fs !! candidate TRASH_DIR stem suffix k = None) ->
  fs !! probe TRASH_DIR fs stem suffix fuel counter = None.
Proof.
  revert counter. induction fuel as [|fuel IH]; intros counter [k [Hk Hfree]];
    simpl; [lia|].
  case_decide as Hocc.
  - apply IH. exists k. split; [|done].
    assert (k <> counter) by (intros ->; rewrite Hfree in Hocc; by destruct Hocc).
    lia.
  - by apply eq_None_not_Some.
Qed.

(** Among [size fs + 1] distinct candidate names one is free. *)
Lemma candidate_free_exists (fs : gmap path content) stem suffix :
  exists k, 1 <= k < 1 + S (size fs) /\
    fs !! candidate TRASH_DIR stem suffix k = None.
Proof.
  set (ks := seq 1 (S (size fs))).
  destruct (decide (Forall (fun k => is_Some (fs !! candidate TRASH_DIR stem suffix k)) ks))
    as [Hall|Hnot].
  - exfalso.
    assert (Hnd : NoDup (map (candidate TRASH_DIR stem suffix) ks)).
    { apply NoDup_map_injective; [apply NoDup_seq|]. apply candidate_inj. }
    assert (Hincl : incl (map (candidate TRASH_DIR stem suffix) ks) (elements (dom fs))).
    { intros p Hp. apply in_map_iff in Hp as [k [<- Hk]].
      apply list_elem_of_In, elem_of_elements, elem_of_dom.
      rewrite Forall_forall in Hall. apply Hall. by apply list_elem_of_In. }
    apply NoDup_ListNoDup in Hnd.
    pose proof (NoDup_incl_length Hnd Hincl) as Hlen.
    unfold ks in Hlen. rewrite length_map, length_seq in Hlen.
    assert (Hsz : length (elements (dom fs)) = size fs).
    { change (size (dom fs) = size fs). apply size_dom. }
    lia.
  - apply not_Forall_Exists in Hnot; [|apply _]. apply Exists_exists in Hnot as [k [Hk Hfree]].
    apply list_elem_of_In, in_seq in Hk. exists k. split; [lia|].
    simpl in Hfree. by apply eq_None_not_Some.
Qed.

Lemma trash_destination_free fs fpath :
  fs !! trash_destination TRASH_DIR fs fpath = None.
Proof.
  unfold trash_destination. case_decide as Hocc.
  - apply probe_spec, candidate_free_exists.
  - by apply eq_None_not_Some.
Qed.

Lemma trash_destination_dir fs fpath :
  (trash_destination TRASH_DIR fs fpath).1 = TRASH_DIR.
Proof. unfold trash_destination. case_decide; [apply probe_dir|done]. Qed.

Lemma trash_destination_not_manifest fs fpath :
  fpath.2 <> "manifest.json" ->
  trash_destination TRASH_DIR fs fpath <> manifest_path TRASH_DIR.
Proof.
  intros Hname. unfold trash_destination. case_decide.
  - apply probe_not_manifest.
  - unfold manifest_path. intros [= Heq]. contradiction.
Qed.

End Probe.

(** *** Remove followed by Undo *)

Lemma dict_set_fresh (L : manifest_t) (k v : path) :
  k ∉ map fst L -> dict_set L k v = L ++ [(k, v)].
Proof.
  induction L as [|[k' v'] L IH]; intros Hk; simpl; [done|].
  rewrite decide_False by (intros ->; apply Hk; left).
  f_equal. apply IH. intros Hin. apply Hk. by right.
Qed.

Lemma relocated_nil base fs : relocated base [] fs -> fs = base.
Proof.
  intros (_ & _ & Hother). apply map_eq. intros x.
  apply Hother; intros Hx; inversion Hx.
Qed.

Lemma entries_ok_fst T base L p q :
  entries_ok T base L -> (p, q) ∈ L -> p.1 <> T /\ q.1 = T /\ is_Some (base !! p) /\ base !! q = None.
Proof. intros (_ & _ & H) Hin. by apply H. Qed.

Lemma map_fst_in_T T base L x :
  entries_ok T base L -> x ∈ map fst L -> x.1 <> T.
Proof.
  intros Hok Hx. apply list_elem_of_fmap in Hx as [[p q] [-> Hin]].
  by apply (entries_ok_fst T base L p q).
Qed.

Lemma map_snd_in_T T base L x :
  entries_ok T base L -> x ∈ map snd L -> x.1 = T.
Proof.
  intros Hok Hx. apply list_elem_of_fmap in Hx as [[p q] [-> Hin]].
  by apply (entries_ok_fst T base L p q).
Qed.


Lemma remove_loop_relocates (T : string) (fs0 : gmap path content) :
  (forall x : path, x.1 = T -> fs0 !! x = None) ->
  forall (req : list path) (L : manifest_t) (s : state) (moved : nat),
  manifest s = L -> relocated fs0 L (files s) -> entries_ok T fs0 L ->
  T ∈ dirs s -> (forall q, q ∈ map snd L -> q <> manifest_path T) ->
  NoDup req ->
  (forall p, p ∈ req -> (p ∉ map fst L) /\ is_Some (fs0 !! p) /\ (p ∉ locked s) /\
                        p.2 <> "manifest.json") ->
  exists L' s', exec (remove_loop T req moved) s (Ok (moved + length req)) s' /\
    manifest s' = L ++ L' /\ map fst L' = req /\
    relocated fs0 (L ++ L') (files s') /\ entries_ok T fs0 (L ++ L') /\
    dirs s' = dirs s /\ locked s' = locked s /\
    (forall q, q ∈ map snd (L ++ L') -> q <> manifest_path T).
Proof.
  intros HT req. induction req as [|p rest IH];
    intros L s moved Hman Hrel Hok Hdir Hnm Hnd Hreq; simpl.
  - exists [], s. rewrite !app_nil_r, Nat.add_0_r.
    do 7 (split; [first [apply exec_ret|done]|]). done.
  - apply NoDup_cons in Hnd as [Hp_rest Hnd].
    destruct (Hreq p ltac:(left)) as (HpL & [c Hc] & Hpl & Hpname).
    assert (HpT : p.1 <> T) by (intros HpT; rewrite HT in Hc by done; discriminate).
    destruct Hrel as (Hrel1 & Hrel2 & Hrel3).
    assert (HpS : p ∉ map snd L) by (intros Hin; apply HpT; eapply map_snd_in_T; eauto).
    assert (Hcs : files s !! p = Some c) by (rewrite Hrel3 by done; exact Hc).
    set (q := trash_destination T (files s) p).
    assert (Hqfree : files s !! q = None) by apply trash_destination_free.
    assert (HqT : q.1 = T) by apply trash_destination_dir.
    assert (Hqm : q <> manifest_path T) by (by apply trash_destination_not_manifest).
    assert (HqL : q ∉ map snd L).
    { intros Hin. apply list_elem_of_fmap in Hin as [[p' q'] [Heq Hin]]. simpl in Heq. rewrite <-Heq in Hin.
      rewrite (Hrel2 p' q Hin) in Hqfree.
      destruct (entries_ok_fst T fs0 L p' q Hok Hin) as (_ & _ & Hsome & _).
      rewrite Hqfree in Hsome. by destruct Hsome. }
    assert (HqF : q ∉ map fst L) by (intros Hin; eapply map_fst_in_T in Hin; eauto).
    assert (Hpq : p <> q) by (intros Heq; apply HpT; rewrite Heq; exact HqT).
    set (s1 := set_moves (moves s ++ [(p, q)]) (set_files (<[q := c]> (delete p (files s))) s)).
    set (s2 := set_manifest (dict_set (manifest s1) p q) s1).
    destruct (IH (L ++ [(p, q)]) s2 (S moved)) as (L'' & s' & Hex & Hm' & Hf' & Hr' & Hok' & Hd' & Hl' & Hnm');
      try done.
    + simpl. rewrite Hman. by apply dict_set_fresh.
    + split_and!.
      * intros x Hx. simpl. rewrite map_app, elem_of_app in Hx. simpl in Hx.
        destruct Hx as [Hx|Hx].
        -- assert (x <> q) by (intros ->; contradiction).
           assert (x <> p) by (intros ->; contradiction).
           rewrite lookup_insert_ne, lookup_delete_ne by done. by apply Hrel1.
        -- apply list_elem_of_singleton in Hx as ->.
           by rewrite lookup_insert_ne, lookup_delete_eq by done.
      * intros p' q' Hin. simpl. apply elem_of_app in Hin as [Hin|Hin].
        -- assert (q' <> q) by (intros ->; apply HqL; apply list_elem_of_fmap; by exists (p', q)).
           assert (q' <> p) by (intros ->; apply HpS; apply list_elem_of_fmap; by exists (p', p)).
           rewrite lookup_insert_ne, lookup_delete_ne by done. by apply Hrel2.
        -- apply list_elem_of_singleton in Hin. injection Hin as -> ->.
           by rewrite lookup_insert_eq.
      * intros x Hx1 Hx2. simpl. rewrite map_app, elem_of_app in Hx1, Hx2. simpl in Hx1, Hx2.
        assert (x <> p) by (intros ->; apply Hx1; right; left).
        assert (x <> q) by (intros ->; apply Hx2; right; left).
        rewrite lookup_insert_ne, lookup_delete_ne by done.
        apply Hrel3; intros Hin; [apply Hx1|apply Hx2]; by left.
    + destruct Hok as (Hnd1 & Hnd2 & Hents). split_and!.
      * rewrite map_app. apply NoDup_app. split_and!; [done| |by apply NoDup_singleton].
        intros x Hx Hx'. apply list_elem_of_singleton in Hx' as ->. contradiction.
      * rewrite map_app. apply NoDup_app. split_and!; [done| |by apply NoDup_singleton].
        intros x Hx Hx'. apply list_elem_of_singleton in Hx' as ->. contradiction.
      * intros p' q' Hin. apply elem_of_app in Hin as [Hin|Hin]; [by apply Hents|].
        apply list_elem_of_singleton in Hin. injection Hin as -> ->.
        split_and!; try done. by apply HT.
    + intros x Hx. rewrite map_app, elem_of_app in Hx. destruct Hx as [Hx|Hx]; [by apply Hnm|].
      apply list_elem_of_singleton in Hx as ->. done.
    + intros p' Hp'. destruct (Hreq p' ltac:(by right)) as (Hp'L & Hs & Hl & Hn).
      split_and!; try done.
      rewrite map_app, elem_of_app. intros [Hin|Hin]; [contradiction|].
      apply list_elem_of_singleton in Hin as ->. contradiction.
    + exists ((p, q) :: L''), s'. rewrite <-app_assoc in Hm', Hr', Hok', Hnm'. simpl in *.
      split; [|split; [exact Hm'|split; [simpl; by rewrite Hf'|split; [exact Hr'|
        split; [exact Hok'|split; [by rewrite Hd'|split; [by rewrite Hl'|exact Hnm']]]]]]].
      unfold path_exists. eapply exec_bind_ok; [apply exec_gets|].
        rewrite bool_decide_eq_true_2 by (rewrite Hcs; eauto).
        eapply exec_bind_ok; [apply exec_gets|]. fold q.
        eapply exec_bind_ok.
        { exists [s1]. unfold shutil_move. rewrite Hcs.
          rewrite decide_False; [reflexivity|]. rewrite HqT. intros [?|?]; contradiction. }
        eapply exec_bind_ok; [apply exec_step|].
        replace (moved + S (length rest)) with (S moved + length rest) by lia. exact Hex.
Qed.

Lemma entries_ok_tail (T : string) base e (R : manifest_t) :
  entries_ok T base (e :: R) -> entries_ok T base R.
Proof.
  intros (Hnd1 & Hnd2 & Hents). simpl in Hnd1, Hnd2.
  apply NoDup_cons in Hnd1 as [_ Hnd1]. apply NoDup_cons in Hnd2 as [_ Hnd2].
  split_and!; [done|done|]. intros p q Hin. apply Hents. by right.
Qed.

Lemma undo_loop_restores (T : string) (base : gmap path content) :
  forall (R : manifest_t) (s : state) (restored : nat),
  relocated base R (files s) -> entries_ok T base R ->
  (forall q, q ∈ map snd R -> q ∉ locked s) ->
  exists s', exec (undo_loop R restored) s (Ok (restored + length R)) s' /\
    files s' = base /\
    dirs s' = dirs s ∪ list_to_set (map (fun e => e.1.1) R) /\
    manifest s' = manifest s /\ locked s' = locked s.
Proof.
  induction R as [|[p q] R IH]; intros s restored Hrel Hok Hlock; simpl.
  - exists s. rewrite Nat.add_0_r. split; [apply exec_ret|].
    split; [by apply relocated_nil|]. split; [set_solver|done].
  - pose proof (entries_ok_fst T base ((p, q) :: R) p q Hok ltac:(left))
      as (HpT & HqT & [c Hc] & Hq0).
    pose proof (entries_ok_tail T base (p, q) R Hok) as Hok'.
    destruct Hok as (Hnd1 & Hnd2 & _). simpl in Hnd1, Hnd2.
    apply NoDup_cons in Hnd1 as [HpR Hnd1]. apply NoDup_cons in Hnd2 as [HqR Hnd2].
    destruct Hrel as (Hrel1 & Hrel2 & Hrel3).
    assert (Hcq : files s !! q = Some c) by (rewrite (Hrel2 p q) by (left); exact Hc).
    assert (Hpq : p <> q) by (intros ->; contradiction).
    assert (Hql : q ∉ locked s) by (apply Hlock; left).
    set (s1 := set_dirs ({[p.1]} ∪ dirs s) s).
    set (s2 := set_moves (moves s1 ++ [(q, p)])
                 (set_files (<[p := c]> (delete q (files s1))) s1)).
    destruct (IH s2 (S restored)) as (s' & Hex & Hf & Hd & Hm & Hl).
    + split_and!.
      * intros x Hx. simpl.
        assert (x <> p) by (intros ->; contradiction).
        assert (x <> q) by (intros ->; eapply (map_fst_in_T T base R) in Hx; [contradiction|done]).
        rewrite lookup_insert_ne, lookup_delete_ne by done. apply Hrel1. by right.
      * intros p' q' Hin. simpl.
        assert (q' <> q).
        { intros ->. apply HqR. apply list_elem_of_fmap. by exists (p', q). }
        assert (q' <> p).
        { intros ->. apply HpT. eapply (map_snd_in_T T base R); [done|].
          apply list_elem_of_fmap. by exists (p', p). }
        rewrite lookup_insert_ne, lookup_delete_ne by done. apply Hrel2. by right.
      * intros x Hx1 Hx2. simpl.
        destruct (decide (x = p)) as [->|Hxp]; [by rewrite lookup_insert_eq|].
        rewrite lookup_insert_ne by done.
        destruct (decide (x = q)) as [->|Hxq]; [by rewrite lookup_delete_eq|].
        rewrite lookup_delete_ne by done.
        apply Hrel3; simpl; rewrite elem_of_cons; intros [?|?]; contradiction.
    + exact Hok'.
    + intros q' Hq'. simpl. apply Hlock. by right.
    + exists s'. split.
      * unfold path_exists. eapply exec_bind_ok; [apply exec_gets|].
        rewrite bool_decide_eq_true_2 by (rewrite Hcq; eauto).
        eapply exec_bind_ok; [apply exec_step|].
        eapply exec_bind_ok.
        { exists [s2]. unfold shutil_move. simpl. rewrite Hcq.
          rewrite decide_False; [reflexivity|]. simpl. set_solver. }
        replace (restored + S (length R)) with (S restored + length R) by lia.
        exact Hex.
      * split; [done|]. rewrite Hd, Hm, Hl. simpl. split; [set_solver|done].
Qed.

Lemma relocated_empty base : relocated base [] base.
Proof. split_and!; [intros x Hx; inversion Hx|intros p q Hin; inversion Hin|done]. Qed.

Lemma entries_ok_nil (T : string) base : entries_ok T base [].
Proof. split_and!; [constructor|constructor|intros p q Hin; inversion Hin]. Qed.

Lemma remove_undo_roundtrip (T : string) (s0 : state) (req : list path) :
  (forall x : path, x.1 = T -> files s0 !! x = None) ->
  manifest s0 = [] ->
  locked s0 = ∅ ->
  (forall x : path, is_Some (files s0 !! x) -> x.1 ∈ dirs s0) ->
  NoDup req ->
  (forall p, p ∈ req -> is_Some (files s0 !! p) /\ p.2 <> "manifest.json") ->
  exists s1 s2,
    exec (do_remove T req) s0 (Ok (RespOk (length req))) s1 /\
    exec (do_undo T) s1 (Ok (RespOk (length req))) s2 /\
    files s2 = files s0 /\ manifest s2 = [] /\ dirs s2 = dirs s0 ∖ {[T]}.
Proof.
  intros HT Hman0 Hlock0 Hdirs0 Hnd Hreq.
  set (fs0 := files s0).
  set (sA := set_dirs ({[T]} ∪ dirs s0) s0).
  destruct (remove_loop_relocates T fs0 HT req [] sA 0)
    as (L & sB & HexB & HmB & HfstB & HrelB & HokB & HdB & HlB & HnmB);
    try done.
  { apply relocated_empty. }
  { apply entries_ok_nil. }
  { simpl. set_solver. }
  { intros q Hq. inversion Hq. }
  { intros p Hp. destruct (Hreq p Hp) as [Hs Hn]. split_and!; try done.
    - intros Hin. inversion Hin.
    - simpl. rewrite Hlock0. set_solver. }
  simpl in HmB, HrelB, HokB, HnmB.
  set (mp := manifest_path T).
  assert (HmpT : mp.1 = T) by done.
  assert (Hfs0mp : fs0 !! mp = None) by (by apply HT).
  set (sC := set_files (<[mp := Raw ""]> (files sB)) sB).
  set (sD := set_files (<[mp := Json (manifest sC)]> (files sC)) sC).
  set (base := <[mp := Json L]> fs0).
  assert (HlenL : length L = length req) by (rewrite <-HfstB; by rewrite length_map).
  assert (HrelD : relocated base L (files sD)).
  { destruct HrelB as (Hr1 & Hr2 & Hr3). unfold sD, sC, base. simpl.
    rewrite HmB, insert_insert_eq. split_and!.
    - intros x Hx. assert (x <> mp) by (intros ->; eapply map_fst_in_T in Hx; eauto).
      rewrite lookup_insert_ne by done. by apply Hr1.
    - intros p q Hin.
      pose proof (entries_ok_fst T fs0 L p q HokB Hin) as (HpT & _ & _ & _).
      assert (q <> mp) by (apply HnmB, list_elem_of_fmap; by exists (p, q)).
      assert (p <> mp) by (intros ->; contradiction).
      rewrite !lookup_insert_ne by done. by apply Hr2.
    - intros x Hx1 Hx2. destruct (decide (x = mp)) as [->|Hne].
      + by rewrite !lookup_insert_eq.
      + rewrite !lookup_insert_ne by done. by apply Hr3. }
  assert (HokD : entries_ok T base L).
  { destruct HokB as (Hn1 & Hn2 & Hents). split_and!; [done|done|].
    intros p q Hin. destruct (Hents p q Hin) as (HpT & HqT & Hs & Hq0).
    assert (q <> mp) by (apply HnmB, list_elem_of_fmap; by exists (p, q)).
    assert (p <> mp) by (intros ->; contradiction).
    unfold base. rewrite !lookup_insert_ne by done. done. }
  destruct (undo_loop_restores T base L sD 0 HrelD HokD)
    as (sE & HexE & HfE & HdE & HmE & HlE).
  { intros q _. simpl. rewrite HlB. simpl. rewrite Hlock0. set_solver. }
  set (sF := set_manifest [] sE).
  set (sG := set_files (delete mp (files sF)) sF).
  set (sH := set_dirs (dirs sG ∖ {[T]}) sG).
  exists sD, sH. split; [|split; [|split; [|split]]].
  - apply exec_try_ok.
    eapply exec_bind_ok; [apply exec_step|]. fold sA.
    eapply exec_bind_ok; [exact HexB|].
    eapply exec_bind_ok.
    { exists [sC]. unfold open_w. rewrite decide_True; [reflexivity|].
      rewrite HdB. simpl. set_solver. }
    eapply exec_bind_ok; [apply exec_step|]. apply exec_ret.
  - apply exec_try_ok.
    eapply exec_bind_ok; [apply exec_gets|].
    unfold sD at 1. simpl. rewrite HmB.
    eapply exec_bind_ok; [exact HexE|].
    eapply exec_bind_ok; [apply exec_step|]. fold sF.
    unfold path_exists. eapply exec_bind_ok; [apply exec_gets|].
    rewrite bool_decide_eq_true_2
      by (unfold sF; simpl; rewrite HfE; unfold base; rewrite lookup_insert_eq; eauto).
    eapply (exec_bind_ok _ _ _ tt sG).
    { exists [sG]. unfold unlink. rewrite decide_False; [reflexivity|].
      simpl. rewrite HlE. simpl. rewrite HlB. simpl. rewrite Hlock0. set_solver. }
    eapply exec_bind_ok; [apply exec_gets|].
    assert (HfG : files sG = fs0).
    { unfold sG, sF. simpl. rewrite HfE. unfold base. by rewrite delete_insert_id. }
    cbv beta. change (set_files (delete (manifest_path T) (files sF)) sF) with sG. rewrite HfG.
    replace (bool_decide (T ∈ dirs sG) && dir_empty T fs0) with true.
    2:{ symmetry. apply andb_true_intro. split.
        - apply bool_decide_eq_true_2. unfold sG, sF. simpl. rewrite HdE.
          simpl. set_solver.
        - apply bool_decide_eq_true_2. intros x c Hx Hxt.
          rewrite HT in Hx by done. discriminate. }
    eapply exec_bind_ok; [apply exec_step|]. fold sH.
    rewrite Nat.add_0_l, HlenL. apply exec_ret.
  - unfold sH. simpl. unfold sG, sF. simpl. rewrite HfE. unfold base.
    by rewrite delete_insert_id.
  - done.
  - unfold sH, sG, sF. simpl. rewrite HdE. simpl.
    assert (Hpar : list_to_set (map (fun e : path * path => e.1.1) L) ⊆@{gset string} dirs s0).
    { intros d Hd. apply elem_of_list_to_set, list_elem_of_fmap in Hd as [[p q] [-> Hin]].
      simpl. apply Hdirs0. destruct (Hreq p) as [Hs _]; [|done].
      rewrite <-HfstB. apply list_elem_of_fmap. by exists (p, q). }
    set_solver.
Qed.

(** *** Lengths of [PurePath.stem] and [PurePath.suffix] *)

Lemma substring_length (s : string) i m :
  i + m <= String.length s -> String.length (String.substring i m s) = m.
Proof.
  revert i m. induction s as [|c s IH]; intros i m H; destruct i, m; simpl in *;
    try lia.
  - f_equal. apply IH. lia.
  - apply IH. lia.
  - apply IH. lia.
Qed.

Lemma path_stem_suffix_length (name : string) :
  String.length (path_stem name) + String.length (path_suffix name) = String.length name.
Proof.
  unfold path_stem, path_suffix. destruct (rfind_dot name) as [i|]; [|simpl; lia].
  case_decide; [|simpl; lia].
  rewrite !substring_length by lia. lia.
Qed.

Lemma candidate_1_ne (T name : string) :
  candidate T (path_stem name) (path_suffix name) 1 <> (T, name).
Proof.
  unfold candidate. intros [= H]. apply (f_equal String.length) in H.
  rewrite !length_string_app in H.
  pose proof (path_stem_suffix_length name). simpl in H. lia.
Qed.

Lemma candidate_1_eq (T stem suffix : string) :
  candidate T stem suffix 1 = (T, stem +:+ "_1" +:+ suffix).
Proof. reflexivity. Qed.

Lemma probe_S (T : string) fs stem suffix fuel counter :
  probe T fs stem suffix (S fuel) counter =
  if decide (is_Some (fs !! candidate T stem suffix counter))
  then probe T fs stem suffix fuel (S counter) else candidate T stem suffix counter.
Proof. reflexivity. Qed.

(** *** Inversion of the primitive steps *)

Section ExecInv.
Context {A : Type}.

Lemma exec_ret_inv (a : A) s r s' : exec (ret a) s r s' -> r = Ok a /\ s' = s.
Proof. intros [tr H]. unfold ret in H. by simplify_eq. Qed.

Lemma exec_gets_inv (f : state -> A) s r s' : exec (gets f) s r s' -> r = Ok (f s) /\ s' = s.
Proof. intros [tr H]. unfold gets in H. by simplify_eq. Qed.

Lemma exec_try_inv (body : M A) h s r s' :
  exec (try_except body h) s r s' ->
  (exists a, r = Ok a /\ exec body s (Ok a) s') \/
  (exists e s1, exec body s (Exc e) s1 /\ exec (h e) s1 r s').
Proof.
  intros [tr H]. unfold try_except in H.
  destruct (body s) as [[tr1 [a|e]] s1] eqn:E.
  - left. simplify_eq. exists a. split; [done|]. by exists tr.
  - right. destruct (h e s1) as [[tr2 r2] s2] eqn:E2. simplify_eq.
    exists e, s1. split; [by exists tr1|by exists tr2].
Qed.

End ExecInv.

Lemma exec_step_inv (f : state -> state) s r s' : exec (step f) s r s' -> r = Ok tt /\ s' = f s.
Proof. intros [tr H]. unfold step in H. by simplify_eq. Qed.

Lemma exec_raise_inv {A} e s (r : outcome A) s' : exec (raise e) s r s' -> r = Exc e /\ s' = s.
Proof. intros [tr H]. unfold raise in H. by simplify_eq. Qed.

Lemma exec_run {A} (m : M A) s : exec m s (m s).1.2 (m s).2.
Proof. exists (m s).1.1. by destruct (m s) as [[? ?] ?]. Qed.

Lemma shutil_move_inv src dst s r s' :
  exec (shutil_move src dst) s r s' ->
  (exists e, r = Exc e /\ s' = s) \/
  (exists c e, r = Exc e /\ files s !! src = Some c /\
     s' = set_files (<[dst := c]> (files s)) s) \/
  (exists c, r = Ok tt /\ files s !! src = Some c /\
     s' = set_moves (moves s ++ [(src, dst)])
            (set_files (<[dst := c]> (delete src (files s))) s)).
Proof.
  intros [tr H]. unfold shutil_move in H. cbv beta in H.
  destruct (files s !! src) as [c|] eqn:E.
  - repeat case_decide; unfold bind, raise, step in H; simplify_eq.
    + right; left. eauto.
    + left. eauto.
    + right; right. eauto.
  - unfold raise in H. simplify_eq. left. eauto.
Qed.

Lemma undo_loop_manifest R n s r s' :
  exec (undo_loop R n) s r s' -> manifest s' = manifest s.
Proof.
  revert n s. induction R as [|[o q] R IH]; intros n s Hx; simpl in Hx.
  - by apply exec_ret_inv in Hx as [_ ->].
  - apply exec_bind_inv in Hx as [(e & s1 & He & Hk)|(e & _ & He)];
      apply exec_gets_inv in He as [He ->]; [|done].
    clear He. destruct e.
    + apply exec_bind_inv in Hk as [(u & s2 & Hm & Hk)|(e & _ & Hm)];
        apply exec_step_inv in Hm as [Hm ->]; [|done].
      apply exec_bind_inv in Hk as [(u' & s3 & Hv & Hk)|(e & _ & Hv)];
        apply shutil_move_inv in Hv
          as [(e' & He' & ->)|[(c & e' & He' & _ & ->)|(c & He' & _ & ->)]];
        try done; by apply IH in Hk.
    + by apply IH in Hk.
Qed.

Lemma remove_loop_dirs (T : string) req moved s r s' :
  exec (remove_loop T req moved) s r s' -> dirs s' = dirs s.
Proof.
  revert moved s. induction req as [|x req IH]; intros moved s Hx; simpl in Hx.
  - by apply exec_ret_inv in Hx as [_ ->].
  - apply exec_bind_inv in Hx as [(e & s1 & He & Hk)|(err & _ & He)];
      apply exec_gets_inv in He as [_ ->]; [|done].
    destruct e; [|by eapply IH].
    apply exec_bind_inv in Hk as [(td & s1 & Ht & Hk)|(err & _ & Ht)];
      apply exec_gets_inv in Ht as [_ ->]; [|done].
    apply exec_bind_inv in Hk as [(u & s2 & Hm & Hk)|(err & _ & Hm)];
      apply shutil_move_inv in Hm
        as [(e' & He' & ->)|[(c & e' & He' & Hc & ->)|(c & He' & Hc & ->)]]; try done.
    apply exec_bind_inv in Hk as [(u' & s3 & Hd & Hk)|(err & _ & Hd)];
      apply exec_step_inv in Hd as [_ ->]; [|done].
    apply IH in Hk. by rewrite Hk.
Qed.

Lemma remove_loop_cons (T : string) fpath rest moved s c r s' :
  files s !! fpath = Some c -> fpath ∉ locked s -> T ∈ dirs s ->
  exec (remove_loop T rest (S moved))
    (let d := trash_destination T (files s) fpath in
     set_manifest (dict_set (manifest s) fpath d)
       (set_moves (moves s ++ [(fpath, d)])
          (set_files (<[d := c]> (delete fpath (files s))) s))) r s' ->
  exec (remove_loop T (fpath :: rest) moved) s r s'.
Proof.
  intros Hc Hl HT Hrest. simpl.
  eapply exec_bind_ok; [apply exec_gets|].
  rewrite bool_decide_eq_true_2 by (rewrite Hc; eauto).
  eapply exec_bind_ok; [apply exec_gets|].
  eapply exec_bind_ok.
  { exists [set_moves (moves s ++ [(fpath, trash_destination T (files s) fpath)])
              (set_files (<[trash_destination T (files s) fpath := c]>
                            (delete fpath (files s))) s)].
    unfold shutil_move. rewrite Hc, decide_False; [reflexivity|].
    rewrite trash_destination_dir. intros [|]; contradiction. }
  eapply exec_bind_ok; [apply exec_step|]. exact Hrest.
Qed.

Lemma remove_loop_app (T : string) l1 l2 m s k s1 r s' :
  exec (remove_loop T l1 m) s (Ok k) s1 -> exec (remove_loop T l2 k) s1 r s' ->
  exec (remove_loop T (l1 ++ l2) m) s r s'.
Proof.
  revert m s. induction l1 as [|x l1 IH]; intros m s H1 H2; simpl in *.
  - by apply exec_ret_inv in H1 as [[= ->] ->].
  - apply exec_bind_inv in H1 as [(e & sa & He & Hk)|(err & Hr & _)]; [|discriminate].
    apply exec_gets_inv in He as [[= He] ->].
    eapply exec_bind_ok; [apply exec_gets|]. rewrite <-He.
    destruct e; [|by eapply IH].
    apply exec_bind_inv in Hk as [(td & sb & Ht & Hk)|(err & Hr & _)]; [|discriminate].
    apply exec_gets_inv in Ht as [[= Ht] ->].
    eapply exec_bind_ok; [apply exec_gets|]. rewrite <-Ht.
    apply exec_bind_inv in Hk as [(u & sc & Hm & Hk)|(err & Hr & _)]; [|discriminate].
    eapply exec_bind_ok; [exact Hm|].
    apply exec_bind_inv in Hk as [(u' & sd & Hs & Hk)|(err & Hr & _)]; [|discriminate].
    eapply exec_bind_ok; [exact Hs|]. by eapply IH.
Qed.

Lemma fresh_start_facts (T : string) s :
  fresh_start T s ->
  (forall x : path, x.1 = T -> files s !! x = None) /\
  (forall x : path, is_Some (files s !! x) -> x.1 ∈ dirs s) /\
  manifest s = [] /\ locked s = ∅.
Proof.
  intros (Hall & Hm & Hl). split_and!; [| |done|done].
  - intros x Hx. destruct (files s !! x) as [c|] eqn:E; [|done].
    destruct (Hall x c E). contradiction.
  - intros x [c E]. by destruct (Hall x c E).
Qed.

(** *** Preservation of [manifest_injective] *)

Lemma preserves_bind {A B} P (m : M A) (k : A -> M B) :
  preserves P m -> (forall a, preserves P (k a)) -> preserves P (bind m k).
Proof.
  intros Hm Hk s r s' Hs Hx.
  apply exec_bind_inv in Hx as [(a & s1 & H1 & H2)|(e & _ & H1)].
  - eapply Hk; [|exact H2]. by eapply Hm.
  - by eapply Hm.
Qed.

Lemma preserves_ret {A} P (a : A) : preserves P (ret a).
Proof. intros s r s' Hs Hx. by apply exec_ret_inv in Hx as [_ ->]. Qed.

Lemma preserves_step P f : (forall s, P s -> P (f s)) -> preserves P (step f).
Proof. intros Hf s r s' Hs Hx. apply exec_step_inv in Hx as [_ ->]. by apply Hf. Qed.

Lemma preserves_try {A} P (body : M A) h :
  preserves P body -> (forall e, preserves P (h e)) -> preserves P (try_except body h).
Proof.
  intros Hb Hh s r s' Hs Hx.
  apply exec_try_inv in Hx as [(a & _ & Hx)|(e & s1 & H1 & H2)].
  - by eapply Hb.
  - eapply Hh; [|exact H2]. by eapply Hb.
Qed.

Lemma dict_set_elem (L : manifest_t) k v p q :
  (p, q) ∈ dict_set L k v -> (p, q) ∈ L \/ (p, q) = (k, v).
Proof.
  induction L as [|[k' v'] L IH]; simpl.
  - intros Hin. apply list_elem_of_singleton in Hin. by right.
  - case_decide.
    + intros Hin. apply elem_of_cons in Hin as [Hin|Hin]; [by right|].
      left. by right.
    + intros Hin. apply elem_of_cons in Hin as [Hin|Hin]; [left; rewrite Hin; by left|].
      destruct (IH Hin); [left; by right|by right].
Qed.

Lemma dict_set_NoDup_snd (L : manifest_t) k v :
  v ∉ map snd L -> NoDup (map snd L) -> NoDup (map snd (dict_set L k v)).
Proof.
  induction L as [|[k' v'] L IH]; simpl; intros Hv Hnd.
  - repeat constructor. set_solver.
  - apply NoDup_cons in Hnd as [Hv' Hnd]. apply not_elem_of_cons in Hv as [Hvv Hv].
    case_decide; simpl; constructor; try done.
    + intros Hin. apply list_elem_of_fmap in Hin as [[p q] [Hq Hin]]. simpl in Hq. subst q.
      apply dict_set_elem in Hin as [Hin|[= _ ->]]; [|done].
      apply Hv', list_elem_of_fmap. by exists (p, v').
    + by apply IH.
Qed.

Lemma remove_loop_preserves (T : string) (req : list path) (moved : nat) :
  (forall p, p ∈ req -> p.1 <> T) ->
  preserves (manifest_injective T) (remove_loop T req moved).
Proof.
  revert moved. induction req as [|x req IH]; intros moved Hreq; simpl.
  { apply preserves_ret. }
  assert (HxT : x.1 <> T) by (apply Hreq; left).
  assert (IH' : forall m, preserves (manifest_injective T) (remove_loop T req m)).
  { intros m. apply IH. intros p Hp. apply Hreq. by right. }
  intros s r s' Hs Hx.
  apply exec_bind_inv in Hx as [(e & s1 & He & Hk)|(err & _ & He)];
    apply exec_gets_inv in He as [_ ->]; [|done].
  destruct e; [|by eapply IH'].
  apply exec_bind_inv in Hk as [(td & s1 & Ht & Hk)|(err & _ & Ht)];
    apply exec_gets_inv in Ht as [Ht ->]; [injection Ht as Htd|discriminate].
  apply exec_bind_inv in Hk as [(u & s2 & Hm & Hk)|(err & _ & Hm)];
    apply shutil_move_inv in Hm
      as [(e' & He' & ->)|[(c & e' & He' & Hc & ->)|(c & He' & Hc & ->)]]; try done.
  2: { (* the copy left by a failed move changes no manifest entry *)
       destruct Hs as [Hnd Hents]. split; [done|]. intros p q Hin.
       destruct (Hents p q Hin) as [HqT Hocc]. split; [done|]. simpl.
       destruct (decide (q = td)) as [->|Hne]; [rewrite lookup_insert_eq; eauto|].
       by rewrite lookup_insert_ne. }
  apply exec_bind_inv in Hk as [(u' & s3 & Hd & Hk)|(err & _ & Hd)];
    apply exec_step_inv in Hd as [Hd ->]; [|discriminate].
  eapply IH'; [|exact Hk].
  destruct Hs as [Hnd Hents].
  assert (Hfree : files s !! td = None) by (rewrite Htd; apply trash_destination_free).
  assert (HtdT : td.1 = T) by (rewrite Htd; apply trash_destination_dir).
  split; simpl.
  - apply dict_set_NoDup_snd; [|done].
    intros Hin. apply list_elem_of_fmap in Hin as [[p q] [Hq Hin]]. simpl in Hq. subst q.
    destruct (Hents p td Hin) as [_ Hocc]. rewrite Hfree in Hocc. by destruct Hocc.
  - intros p q Hin. apply dict_set_elem in Hin as [Hin|[= -> ->]].
    + destruct (Hents p q Hin) as [HqT Hocc]. split; [done|].
      destruct (decide (q = td)) as [->|Hne]; [by rewrite lookup_insert_eq|].
      rewrite lookup_insert_ne by done.
      rewrite lookup_delete_ne by (intros <-; done). done.
    + split; [done|]. rewrite lookup_insert_eq. eauto.
Qed.

Lemma do_remove_preserves (T : string) (req : list path) :
  (forall p, p ∈ req -> p.1 <> T) ->
  preserves (manifest_injective T) (do_remove T req).
Proof.
  intros Hreq. apply preserves_try; [|intros e; apply preserves_ret].
  apply preserves_bind; [apply preserves_step; by intros s []|intros _].
  apply preserves_bind; [by apply remove_loop_preserves|intros moved].
  apply preserves_bind.
  { intros s r s' Hs Hx. destruct Hx as [tr Hx]. unfold open_w in Hx.
    case_decide; unfold raise, step in Hx; simplify_eq; [|done].
    destruct Hs as [Hnd Hents]. split; [done|].
    intros p q Hin. destruct (Hents p q Hin) as [HqT Hocc]. split; [done|]. simpl.
    destruct (decide (q = manifest_path T)) as [->|Hne];
      [rewrite lookup_insert_eq; eauto|by rewrite lookup_insert_ne]. }
  intros _. apply preserves_bind; [|intros _; apply preserves_ret].
  apply preserves_step. intros s [Hnd Hents]. split; [done|].
  intros p q Hin. destruct (Hents p q Hin) as [HqT Hocc]. split; [done|]. simpl.
  destruct (decide (q = manifest_path T)) as [->|Hne];
    [rewrite lookup_insert_eq; eauto|by rewrite lookup_insert_ne].
Qed.

(** *** The claims *)

Import Samples.

(** C1 (code defect).  A file named [manifest.json] that is removed is
    moved to [TRASH_DIR/manifest.json], the very path [/remove] then writes
    the manifest to: [json.dump] overwrites the user's file.  [/undo] moves
    the manifest document back to the original path and reports success;
    the file's original content is gone from the file system. *)

Lemma remove_undo_loses_manifest_named_file :
  exists s1 s2,
    exec (do_remove T0 [notes]) s_notes (Ok (RespOk 1)) s1 /\
    exec (do_undo T0) s1 (Ok (RespOk 1)) s2 /\
    files s_notes !! notes = Some (Raw "my notes") /\
    files s2 !! notes = Some (Json [(notes, (T0, "manifest.json"))]) /\
    (forall x, files s2 !! x <> Some (Raw "my notes")).
Proof.
  eexists _, _. split; [eexists; vm_compute; reflexivity|].
  split; [eexists; vm_compute; reflexivity|].
  split; [reflexivity|]. split; [vm_compute; reflexivity|].
  match goal with |- forall x, files ?S !! x <> _ =>
    assert (E : files S = {[notes := Json [(notes, (T0, "manifest.json"))]]})
      by (vm_compute; reflexivity) end.
  intros x Hx. rewrite E in Hx. apply lookup_singleton_Some in Hx as [_ Hx]. discriminate.
Qed.

(** C1, the property for every other file name: on a fresh start,
    [/remove] of distinct existing files none of which is named
    [manifest.json], followed by [/undo], gives back the original files
    with their contents, empties the manifest, deletes [manifest.json]
    and removes the then empty quarantine directory. *)
Theorem remove_undo_restores (T : string) (s0 : state) (req : list path) :
  fresh_start T s0 -> NoDup req ->
  Forall (fun p : path => is_Some (files s0 !! p) /\ p.2 <> "manifest.json") req ->
  exists s1 s2,
    exec (do_remove T req) s0 (Ok (RespOk (length req))) s1 /\
    exec (do_undo T) s1 (Ok (RespOk (length req))) s2 /\
    files s2 = files s0 /\ manifest s2 = [] /\ dirs s2 = dirs s0 ∖ {[T]}.
Proof.
  intros Hf Hnd Hreq. destruct (fresh_start_facts T s0 Hf) as (HT & Hd & Hm & Hl).
  apply remove_undo_roundtrip; try done.
  intros p Hp. rewrite Forall_forall in Hreq. by apply Hreq.
Qed.

Lemma remove_undo_restores_witness :
  exists s1 s2,
    exec (do_remove T0 [p2023; p2024]) s_twins (Ok (RespOk 2)) s1 /\
    exec (do_undo T0) s1 (Ok (RespOk 2)) s2 /\
    files s2 = files s_twins /\ manifest s2 = [] /\ dirs s2 = dirs s_twins ∖ {[T0]}.
Proof.
  apply (remove_undo_restores T0 s_twins [p2023; p2024]);
    apply (bool_decide_unpack _); vm_compute; reflexivity.
Defined.

Lemma undo_entries_cons (T : string) p q (R : manifest_t) :
  NoDup (map fst ((p, q) :: R)) -> NoDup (map snd ((p, q) :: R)) ->
  Forall (fun e : path * path => e.1.1 <> T /\ e.2.1 = T) ((p, q) :: R) ->
  NoDup (map fst R) /\ NoDup (map snd R) /\
  Forall (fun e : path * path => e.1.1 <> T /\ e.2.1 = T) R /\ p <> q /\
  forall a b, (a, b) ∈ R -> a <> p /\ b <> q /\ b <> p /\ a <> q.
Proof.
  intros Hn1 Hn2 HT. simpl in Hn1, Hn2.
  apply NoDup_cons in Hn1 as [Hp Hn1]. apply NoDup_cons in Hn2 as [Hq Hn2].
  apply Forall_cons in HT as [[HpT HqT] HT]. simpl in HpT, HqT.
  split_and!; [done|done|done|intros ->; congruence|].
  intros a b Hab. rewrite Forall_forall in HT.
  destruct (HT (a, b) Hab) as [HaT HbT]. simpl in HaT, HbT.
  split_and!.
  - intros ->. apply Hp. apply list_elem_of_fmap. by exists (p, b).
  - intros ->. apply Hq. apply list_elem_of_fmap. by exists (a, q).
  - intros ->. congruence.
  - intros ->. congruence.
Qed.

Lemma undo_loop_cons_missing p q R n s r s' :
  files s !! q = None ->
  exec (undo_loop R n) s r s' -> exec (undo_loop ((p, q) :: R) n) s r s'.
Proof.
  intros Hq Hx. simpl. unfold path_exists.
  eapply exec_bind_ok; [apply exec_gets|].
  rewrite bool_decide_eq_false_2 by (rewrite Hq; intros [? ?]; discriminate).
  exact Hx.
Qed.

Lemma undo_loop_cons_present p q R n s c r s' :
  files s !! q = Some c -> q ∉ locked s ->
  exec (undo_loop R (S n))
    (set_moves (moves s ++ [(q, p)])
       (set_files (<[p := c]> (delete q (files s))) (set_dirs ({[p.1]} ∪ dirs s) s))) r s' ->
  exec (undo_loop ((p, q) :: R) n) s r s'.
Proof.
  intros Hq Hl Hx. simpl. unfold path_exists.
  eapply exec_bind_ok; [apply exec_gets|].
  rewrite bool_decide_eq_true_2 by (rewrite Hq; eauto).
  eapply exec_bind_ok; [apply exec_step|].
  eapply exec_bind_ok; [|exact Hx].
  eexists. unfold shutil_move. simpl. rewrite Hq.
  rewrite decide_False; [reflexivity|]. simpl. set_solver.
Qed.

Lemma undo_loop_cons_fail p q R n s c :
  files s !! q = Some c -> q ∈ locked s ->
  exec (undo_loop ((p, q) :: R) n) s (Exc "OSError")
    (if decide (q ∈ unreadable s) then set_dirs ({[p.1]} ∪ dirs s) s
     else set_files (<[p := c]> (files s)) (set_dirs ({[p.1]} ∪ dirs s) s)).
Proof.
  intros Hq Hl. simpl. unfold path_exists.
  eapply exec_bind_ok; [apply exec_gets|].
  rewrite bool_decide_eq_true_2 by (rewrite Hq; eauto).
  eapply exec_bind_ok; [apply exec_step|]. apply exec_bind_exc.
  destruct (decide (q ∈ unreadable s)) as [Hu|Hu];
    eexists; unfold shutil_move; simpl; rewrite Hq, decide_True by (left; done).
  - rewrite decide_False by (simpl; tauto). reflexivity.
  - rewrite decide_True by (simpl; split; [set_solver|done]). reflexivity.
Qed.

(** The restore loop of [/undo] when no move back raises. *)
Lemma undo_loop_ok (T : string) : forall (R : manifest_t) n s,
  NoDup (map fst R) -> NoDup (map snd R) ->
  Forall (fun e : path * path => e.1.1 <> T /\ e.2.1 = T) R ->
  (forall p q, (p, q) ∈ R -> is_Some (files s !! q) -> q ∉ locked s) ->
  exists s', exec (undo_loop R n) s
      (Ok (n + length (filter (fun e : path * path => is_Some (files s !! e.2)) R))) s' /\
    manifest s' = manifest s /\ locked s' = locked s /\
    (forall p q, (p, q) ∈ R -> is_Some (files s !! q) ->
       files s' !! p = files s !! q /\ files s' !! q = None) /\
    (forall x, (forall p q, (p, q) ∈ R -> is_Some (files s !! q) -> x <> p /\ x <> q) ->
       files s' !! x = files s !! x).
Proof.
  induction R as [|[p q] R IH]; intros n s Hn1 Hn2 HT Hl.
  - exists s. simpl. rewrite Nat.add_0_r. split; [apply exec_ret|].
    split_and!; [done|done| |done]. intros p q Hin. inversion Hin.
  - destruct (undo_entries_cons T p q R Hn1 Hn2 HT) as (Hn1' & Hn2' & HT' & Hpq & Hdist).
    destruct (files s !! q) as [c|] eqn:Hc.
    + assert (Hql : q ∉ locked s) by (apply (Hl p q); [left|rewrite Hc; eauto]).
      set (s2 := set_moves (moves s ++ [(q, p)])
                   (set_files (<[p := c]> (delete q (files s))) (set_dirs ({[p.1]} ∪ dirs s) s))).
      assert (Hs2 : forall a b, (a, b) ∈ R -> files s2 !! b = files s !! b).
      { intros a b Hab. destruct (Hdist a b Hab) as (_ & Hbq & Hbp & _).
        simpl. by rewrite lookup_insert_ne, lookup_delete_ne by congruence. }
      destruct (IH (S n) s2 Hn1' Hn2' HT') as (s' & Hx & Hm & Hlk & Hres & Hoth).
      { intros a b Hab Hb. rewrite (Hs2 a b Hab) in Hb. apply (Hl a b); [by right|done]. }
      assert (Hf : filter (fun e : path * path => is_Some (files s2 !! e.2)) R =
                   filter (fun e : path * path => is_Some (files s !! e.2)) R).
      { apply DedupFacts.filter_ext_in. intros [a b] Hab. cbn [snd]. by rewrite (Hs2 a b Hab). }
      exists s'. split.
      * rewrite filter_cons_True by (simpl; rewrite Hc; eauto).
        rewrite Hf in Hx. simpl length.
        replace (n + S (length (filter (fun e : path * path => is_Some (files s !! e.2)) R)))
          with (S n + length (filter (fun e : path * path => is_Some (files s !! e.2)) R)) by lia.
        by eapply undo_loop_cons_present.
      * split_and!; [by rewrite Hm|by rewrite Hlk| |].
        -- intros a b Hab Hb. apply elem_of_cons in Hab as [Heq|Hab].
           ++ injection Heq as -> ->. rewrite Hc.
              rewrite !Hoth.
              ** simpl. split; [by rewrite lookup_insert_eq|].
                 by rewrite lookup_insert_ne, lookup_delete_eq by congruence.
              ** intros a b Hab _. destruct (Hdist a b Hab) as (? & ? & ? & ?). split; congruence.
              ** intros a b Hab _. destruct (Hdist a b Hab) as (? & ? & ? & ?). split; congruence.
           ++ rewrite <-(Hs2 a b Hab) in Hb. destruct (Hres a b Hab Hb) as [H1 H2].
              rewrite H1, H2. by rewrite (Hs2 a b Hab).
        -- intros x Hx'. rewrite Hoth.
           ++ destruct (Hx' p q) as [Hxp Hxq]; [left|rewrite Hc; eauto|].
              simpl. by rewrite lookup_insert_ne, lookup_delete_ne by done.
           ++ intros a b Hab Hb. rewrite (Hs2 a b Hab) in Hb. apply Hx'; [by right|done].
    + destruct (IH n s Hn1' Hn2' HT') as (s' & Hx & Hm & Hlk & Hres & Hoth).
      { intros a b Hab. apply (Hl a b). by right. }
      exists s'. rewrite filter_cons_False by (simpl; rewrite Hc; intros [? ?]; discriminate).
      split; [by apply undo_loop_cons_missing|].
      split_and!; [done|done| |].
      * intros a b Hab Hb. apply elem_of_cons in Hab as [Heq|Hab].
        -- injection Heq as -> ->. rewrite Hc in Hb. destruct Hb; discriminate.
        -- by apply Hres.
      * intros x Hx'. apply Hoth. intros a b Hab Hb. apply Hx'; [by right|done].
Qed.

(** The restore loop of [/undo] when the move back of entry [e] raises;
    [pre] are the entries restored before it. *)
Lemma undo_loop_exc (T : string) : forall (R : manifest_t) n s pre e post,
  NoDup (map fst R) -> NoDup (map snd R) ->
  Forall (fun e : path * path => e.1.1 <> T /\ e.2.1 = T) R ->
  filter (fun e : path * path => is_Some (files s !! e.2)) R = pre ++ e :: post ->
  (forall p q, (p, q) ∈ pre -> q ∉ locked s) -> e.2 ∈ locked s ->
  exists s', exec (undo_loop R n) s (Exc "OSError") s' /\
    manifest s' = manifest s /\
    (forall p q, (p, q) ∈ pre -> files s' !! p = files s !! q /\ files s' !! q = None) /\
    files s' !! e.2 = files s !! e.2 /\
    files s' !! e.1 = (if decide (e.2 ∈ unreadable s) then files s !! e.1 else files s !! e.2) /\
    (forall x, x <> e.1 -> (forall p q, (p, q) ∈ pre -> x <> p /\ x <> q) ->
       files s' !! x = files s !! x).
Proof.
  induction R as [|[p q] R IH]; intros n s pre e post Hn1 Hn2 HT Hf Hl He.
  - simpl in Hf. destruct pre; discriminate.
  - destruct (undo_entries_cons T p q R Hn1 Hn2 HT) as (Hn1' & Hn2' & HT' & Hpq & Hdist).
    destruct (files s !! q) as [c|] eqn:Hc.
    + rewrite filter_cons_True in Hf by (simpl; rewrite Hc; eauto).
      destruct pre as [|e0 pre].
      * simpl in Hf. injection Hf as <- _. simpl in He |- *.
        eexists. split; [by apply undo_loop_cons_fail|].
        destruct (decide (q ∈ unreadable s)) as [Hu|Hu]; simpl.
        -- split_and!; [done|intros ? ? Hin; inversion Hin|done|done|].
           intros x _ _. done.
        -- split_and!; [done|intros ? ? Hin; inversion Hin| | |].
           ++ by rewrite lookup_insert_ne by congruence.
           ++ by rewrite lookup_insert_eq, Hc.
           ++ intros x Hx _. by rewrite lookup_insert_ne by done.
      * simpl in Hf. injection Hf as <- Hf.
        assert (Hql : q ∉ locked s) by (apply (Hl p q); left).
        assert (Hsub : forall y, y ∈ pre ++ e :: post -> y ∈ R).
        { intros y Hy. rewrite <-Hf in Hy. by apply list_elem_of_filter in Hy as [_ Hy]. }
        assert (HeR : e ∈ R) by (apply Hsub; apply elem_of_app; right; left).
        set (s2 := set_moves (moves s ++ [(q, p)])
                     (set_files (<[p := c]> (delete q (files s))) (set_dirs ({[p.1]} ∪ dirs s) s))).
        assert (Hs2 : forall a b, (a, b) ∈ R -> files s2 !! b = files s !! b /\
                                                 files s2 !! a = files s !! a).
        { intros a b Hab. destruct (Hdist a b Hab) as (Hap & Hbq & Hbp & Haq).
          simpl. by rewrite !lookup_insert_ne, !lookup_delete_ne by congruence. }
        assert (Hf' : filter (fun e : path * path => is_Some (files s2 !! e.2)) R = pre ++ e :: post).
        { rewrite <-Hf. apply DedupFacts.filter_ext_in. intros [a b] Hab. cbn [snd].
          by rewrite (proj1 (Hs2 a b Hab)). }
        destruct (IH (S n) s2 pre e post Hn1' Hn2' HT' Hf') as (s' & Hx & Hm & Hres & He2 & He1 & Hoth).
        { intros a b Hab. apply (Hl a b). by right. }
        { exact He. }
        destruct e as [e1 e2]. simpl in *.
        destruct (Hdist e1 e2 HeR) as (He1p & He2q & He2p & He1q).
        destruct (Hs2 e1 e2 HeR) as [Hs2e2 Hs2e1].
        exists s'. split; [by eapply undo_loop_cons_present|].
        split_and!; [by rewrite Hm| | | |].
        -- intros a b Hab. apply elem_of_cons in Hab as [Heq|Hab].
           ++ injection Heq as -> ->. rewrite Hc.
              assert (Hpre : forall a b, (a, b) ∈ pre -> (a, b) ∈ R)
                by (intros a b Hab; apply Hsub, elem_of_app; by left).
              rewrite !Hoth; try done.
              ** simpl. split; [by rewrite lookup_insert_eq|].
                 by rewrite lookup_insert_ne, lookup_delete_eq by congruence.
              ** intros a b Hab. destruct (Hdist a b (Hpre a b Hab)) as (? & ? & ? & ?). split; congruence.
              ** intros a b Hab. destruct (Hdist a b (Hpre a b Hab)) as (? & ? & ? & ?). split; congruence.
           ++ assert (HabR : (a, b) ∈ R) by (apply Hsub, elem_of_app; by left).
              destruct (Hres a b Hab) as [H1 H2]. rewrite H1, H2.
              by rewrite (proj1 (Hs2 a b HabR)).
        -- by rewrite He2.
        -- rewrite He1. change (unreadable s2) with (unreadable s).
           by case_decide.
        -- intros x Hx1 Hx2. rewrite Hoth; [|done|intros a b Hab; apply Hx2; by right].
           destruct (Hx2 p q) as [Hxp Hxq]; [left|].
           simpl. by rewrite lookup_insert_ne, lookup_delete_ne by done.
    + rewrite filter_cons_False in Hf by (simpl; rewrite Hc; intros [? ?]; discriminate).
      destruct (IH n s pre e post Hn1' Hn2' HT' Hf Hl He) as (s' & Hx & Hrest).
      exists s'. split; [by apply undo_loop_cons_missing|done].
Qed.

(** C3.  Take a manifest as [/remove] builds it: distinct originals,
    distinct quarantine paths, the originals outside the quarantine
    directory [T] and the quarantine paths inside it.  Let [P] be its
    entries whose quarantined file exists.  If no move back raises,
    [/undo] restores every entry of [P] and touches no other file but
    [manifest.json]; it always clears the whole in-memory manifest,
    dropping the entries whose quarantined file is missing without
    counting them; it answers with the number of entries of [P] and
    deletes [manifest.json], unless deleting [manifest.json] itself
    raises, and then it answers with the error.  If the move back of an
    entry [e] raises, [/undo] answers with the error and leaves the
    in-memory manifest as it was; the entries of [P] before [e] stay
    restored, the quarantined file of [e] stays in place and, when it can
    be read, the copy fallback of [shutil.move] leaves a copy of it at its
    original path; nothing else changes. *)

Theorem do_undo_outcome (T : string) (s : state) :
  NoDup (map fst (manifest s)) -> NoDup (map snd (manifest s)) ->
  Forall (fun e : path * path => e.1.1 <> T /\ e.2.1 = T) (manifest s) ->
  (Forall (fun e : path * path => e.2 ∉ locked s)
     (filter (fun e : path * path => is_Some (files s !! e.2)) (manifest s)) ->
   exists r s', exec (do_undo T) s (Ok r) s' /\ manifest s' = [] /\
     (forall p q, (p, q) ∈ filter (fun e : path * path => is_Some (files s !! e.2)) (manifest s) ->
        files s' !! p = files s !! q /\ files s' !! q = None) /\
     (forall x, x <> manifest_path T ->
        (forall p q, (p, q) ∈ filter (fun e : path * path => is_Some (files s !! e.2)) (manifest s) ->
           x <> p /\ x <> q) ->
        files s' !! x = files s !! x) /\
     (manifest_path T ∉ locked s ->
        r = RespOk (length (filter (fun e : path * path => is_Some (files s !! e.2)) (manifest s))) /\
        files s' !! manifest_path T = None) /\
     (manifest_path T ∈ locked s -> is_Some (files s !! manifest_path T) ->
        r = RespErr "OSError")) /\
  (forall pre e post,
     filter (fun e : path * path => is_Some (files s !! e.2)) (manifest s) = pre ++ e :: post ->
     Forall (fun e : path * path => e.2 ∉ locked s) pre -> e.2 ∈ locked s ->
     exists s', exec (do_undo T) s (Ok (RespErr "OSError")) s' /\
       manifest s' = manifest s /\
       (forall p q, (p, q) ∈ pre -> files s' !! p = files s !! q /\ files s' !! q = None) /\
       files s' !! e.2 = files s !! e.2 /\
       files s' !! e.1 = (if decide (e.2 ∈ unreadable s) then files s !! e.1 else files s !! e.2) /\
       (forall x, x <> e.1 -> (forall p q, (p, q) ∈ pre -> x <> p /\ x <> q) ->
          files s' !! x = files s !! x)).
Proof.
  intros Hn1 Hn2 HT. set (mp := manifest_path T).
  set (P := filter (fun e : path * path => is_Some (files s !! e.2)) (manifest s)).
  assert (HinP : forall p q, (p, q) ∈ P <-> (p, q) ∈ manifest s /\ is_Some (files s !! q)).
  { intros p q. unfold P. rewrite list_elem_of_filter. simpl. tauto. }
  assert (HmpP : forall p q, (p, q) ∈ manifest s -> p <> mp).
  { intros p q Hin Hp. rewrite Forall_forall in HT. destruct (HT (p, q) Hin) as [HpT _].
    simpl in HpT. by rewrite Hp in HpT. }
  split.
  - intros HP.
    destruct (undo_loop_ok T (manifest s) 0 s Hn1 Hn2 HT) as (s1 & Hl & Hm1 & Hlk1 & Hres & Hoth).
    { intros p q Hin Hq. rewrite Forall_forall in HP. apply (HP (p, q)). by apply HinP. }
    fold P in Hl. rewrite Nat.add_0_l in Hl.
    assert (Hres' : forall p q, (p, q) ∈ P -> files s1 !! p = files s !! q /\ files s1 !! q = None).
    { intros p q Hin. apply HinP in Hin as [Hin Hq]. by apply Hres. }
    assert (Hoth' : forall x, (forall p q, (p, q) ∈ P -> x <> p /\ x <> q) -> files s1 !! x = files s !! x).
    { intros x Hx. apply Hoth. intros p q Hin Hq. apply Hx. by apply HinP. }
    set (s2 := set_manifest [] s1).
    set (b := bool_decide (is_Some (files s2 !! mp))).
    assert (Htail : forall s3, exec (if b then unlink mp else ret tt) s2 (Ok tt) s3 ->
              files s3 !! mp = None -> manifest s3 = [] ->
              (forall x, x <> mp -> files s3 !! x = files s1 !! x) ->
              exists s', exec (do_undo T) s (Ok (RespOk (length P))) s' /\ manifest s' = [] /\
                files s' !! mp = None /\ forall x, files s' !! x = files s3 !! x).
    { intros s3 Hx3 H3mp H3m H3x.
      set (d := bool_decide (T ∈ dirs s3) && dir_empty T (files s3)).
      set (s4 := if d then set_dirs (dirs s3 ∖ {[T]}) s3 else s3).
      exists s4. split; [|unfold s4; destruct d; simpl; split_and!; done].
      apply exec_try_ok.
      eapply exec_bind_ok; [apply exec_gets|].
      eapply exec_bind_ok; [exact Hl|].
      eapply exec_bind_ok; [apply exec_step|]. fold s2.
      eapply exec_bind_ok; [apply exec_gets|]. fold b.
      eapply exec_bind_ok; [exact Hx3|].
      eapply exec_bind_ok; [apply exec_gets|]. fold d.
      apply (exec_bind_ok _ _ _ tt s4).
      { unfold s4. destruct d; [exact (exec_step _ s3)|apply exec_ret]. }
      apply exec_ret. }
    assert (Hfinal : forall r s', manifest s' = [] ->
              (forall x, x <> mp -> files s' !! x = files s1 !! x) ->
              (forall p q, (p, q) ∈ P -> q = mp -> files s' !! q = None) ->
              (mp ∉ locked s -> r = RespOk (length P) /\ files s' !! mp = None) ->
              (mp ∈ locked s -> is_Some (files s !! mp) -> r = RespErr "OSError") ->
              exec (do_undo T) s (Ok r) s' ->
              exists r s', exec (do_undo T) s (Ok r) s' /\ manifest s' = [] /\
                (forall p q, (p, q) ∈ P -> files s' !! p = files s !! q /\ files s' !! q = None) /\
                (forall x, x <> mp -> (forall p q, (p, q) ∈ P -> x <> p /\ x <> q) ->
                   files s' !! x = files s !! x) /\
                (mp ∉ locked s -> r = RespOk (length P) /\ files s' !! mp = None) /\
                (mp ∈ locked s -> is_Some (files s !! mp) -> r = RespErr "OSError")).
    { intros r s' Hm' Hx' Hq' Hr1 Hr2 Hex. exists r, s'.
      split_and!; try done.
      - intros p q Hin. destruct (Hres' p q Hin) as [H1 H2].
        assert (Hp : p <> mp) by (eapply HmpP; apply HinP in Hin as [Hin _]; exact Hin).
        rewrite Hx' by done. split; [done|].
        destruct (decide (q = mp)) as [Hq|Hq]; [by apply (Hq' p q)|]. by rewrite Hx'.
      - intros x Hx Hx2. rewrite Hx' by done. by apply Hoth'. }
    assert (Hs1mp : mp ∈ locked s -> files s1 !! mp = files s !! mp).
    { intros Hml. apply Hoth'. intros p q Hin. split.
      - apply HinP in Hin as [Hin _]. intros Hp. by apply (HmpP p q Hin).
      - intros Hq. subst q. rewrite Forall_forall in HP. by apply (HP (p, mp)) in Hin. }
    destruct b eqn:Eb; [destruct (decide (mp ∈ locked s)) as [Hml|Hml]|].
    + (* deleting [manifest.json] raises *)
      apply (Hfinal (RespErr "OSError") s2); try done.
      * intros p q Hin Hq. subst q. rewrite Forall_forall in HP.
        by apply (HP (p, mp)) in Hin.
      * eapply exec_try_exc; [|apply exec_ret].
        eapply exec_bind_ok; [apply exec_gets|].
        eapply exec_bind_ok; [exact Hl|].
        eapply exec_bind_ok; [apply exec_step|]. fold s2.
        apply (exec_bind_ok _ _ _ true s2); [rewrite <-Eb; apply exec_gets|].
        apply exec_bind_exc. exists []. unfold unlink.
        rewrite decide_True; [reflexivity|]. simpl. by rewrite Hlk1.
    + set (s3 := set_files (delete mp (files s2)) s2).
      destruct (Htail s3) as (s' & Hex & Hm' & Hmp' & Hx').
      { exists [s3]. unfold unlink. rewrite decide_False; [reflexivity|].
        simpl. by rewrite Hlk1. }
      { simpl. by rewrite lookup_delete_eq. }
      { done. }
      { intros x Hx. simpl. by rewrite lookup_delete_ne by done. }
      apply (Hfinal (RespOk (length P)) s'); try done.
      * intros x Hx. rewrite Hx'. simpl. by rewrite lookup_delete_ne by done.
      * intros p q _ Hq. by subst q.
    + destruct (Htail s2) as (s' & Hex & Hm' & Hmp' & Hx').
      { apply exec_ret. }
      { apply bool_decide_eq_false_1 in Eb. by apply eq_None_not_Some. }
      { done. }
      { done. }
      apply (Hfinal (RespOk (length P)) s'); try done.
      * intros p q _ Hq. by subst q.
      * intros Hml Hs. apply bool_decide_eq_false_1 in Eb. change (files s2) with (files s1) in Eb.
        by rewrite Hs1mp in Eb.
  - intros pre e post HP Hpre He.
    destruct (undo_loop_exc T (manifest s) 0 s pre e post Hn1 Hn2 HT HP)
      as (s1 & Hl & Hm1 & Hres & He2 & He1 & Hoth); [|done|].
    { intros p q Hin. rewrite Forall_forall in Hpre. by apply (Hpre (p, q)) in Hin. }
    exists s1. split; [|done].
    eapply exec_try_exc; [|apply exec_ret].
    eapply exec_bind_ok; [apply exec_gets|]. by apply exec_bind_exc.
Qed.

Lemma do_undo_outcome_witness :
  (exists r s', exec (do_undo T0) s_twins_after (Ok r) s' /\ manifest s' = []) /\
  (exists s', exec (do_undo T0) s_stuck (Ok (RespErr "OSError")) s' /\
     manifest s' = manifest s_stuck /\ files s' !! pb = Some (Raw "b")).
Proof.
  split.
  - destruct (do_undo_outcome T0 s_twins_after) as [HA _].
    + apply (bool_decide_unpack _). vm_compute. reflexivity.
    + apply (bool_decide_unpack _). vm_compute. reflexivity.
    + apply (bool_decide_unpack _). vm_compute. reflexivity.
    + destruct HA as (r & s' & Hx & Hm & _).
      * apply (bool_decide_unpack _). vm_compute. reflexivity.
      * exists r, s'. split; [exact Hx|exact Hm].
  - destruct (do_undo_outcome T0 s_stuck) as [_ HB].
    + apply (bool_decide_unpack _). vm_compute. reflexivity.
    + apply (bool_decide_unpack _). vm_compute. reflexivity.
    + apply (bool_decide_unpack _). vm_compute. reflexivity.
    + destruct (HB [(pa, (T0, "a.jpg"))] (pb, (T0, "b.jpg")) [])
        as (s' & Hx & Hm & _ & _ & He1 & _).
      * vm_compute. reflexivity.
      * apply (bool_decide_unpack _). vm_compute. reflexivity.
      * apply (bool_decide_unpack _). vm_compute. reflexivity.
      * exists s'. split; [exact Hx|]. split; [exact Hm|].
        simpl in He1. rewrite He1. vm_compute. reflexivity.
Defined.

(** An entry whose quarantined file is missing is dropped by [/undo],
    which reports success with a count of 0. *)

Lemma undo_drops_missing_entry :
  exists s', exec (do_undo T0) s_lost (Ok (RespOk 0)) s' /\
    manifest s_lost = [lost_entry] /\ manifest s' = [] /\
    files s' !! manifest_path T0 = None.
Proof.
  eexists. split; [eexists; vm_compute; reflexivity|].
  split; [reflexivity|]. split; vm_compute; reflexivity.
Qed.

(** C4.  There is one [try] around the whole batch: when the move of a
    file raises (a file that cannot be removed from its directory),
    [/remove] answers with the error, the files after it are not
    processed, the files moved before it stay in quarantine and in the
    in-memory manifest ([s2] is the state they left), and [manifest.json]
    is not written.  When the failing file can be read, the copy fallback
    of [shutil.move] leaves a copy of it at its quarantine path, recorded
    by no manifest entry; otherwise the final state is [s2]. *)

Theorem remove_aborts_on_failed_move (T : string) (s : state) (pre post : list path)
    (f : path) (k : nat) (s2 : state) (c : content) :
  exec (remove_loop T pre 0) (set_dirs ({[T]} ∪ dirs s) s) (Ok k) s2 ->
  files s2 !! f = Some c -> f ∈ locked s2 ->
  exec (do_remove T (pre ++ f :: post)) s (Ok (RespErr "OSError"))
    (if decide (f ∈ unreadable s2) then s2
     else set_files (<[trash_destination T (files s2) f := c]> (files s2)) s2).
Proof.
  intros Hpre Hc Hlock.
  assert (HT : T ∈ dirs s2).
  { apply remove_loop_dirs in Hpre. rewrite Hpre. simpl. set_solver. }
  assert (Hd : (trash_destination T (files s2) f).1 ∈ dirs s2)
    by (by rewrite trash_destination_dir).
  eapply exec_try_exc; [|apply exec_ret].
  eapply exec_bind_ok; [apply exec_step|]. apply exec_bind_exc.
  eapply remove_loop_app; [exact Hpre|]. simpl.
  eapply exec_bind_ok; [apply exec_gets|].
  rewrite bool_decide_eq_true_2 by (rewrite Hc; eauto).
  eapply exec_bind_ok; [apply exec_gets|]. apply exec_bind_exc.
  destruct (decide (f ∈ unreadable s2)) as [Hu|Hu];
    eexists; unfold shutil_move; rewrite Hc, decide_True by (left; done).
  - rewrite decide_False by tauto. reflexivity.
  - rewrite decide_True by tauto. reflexivity.
Qed.

Lemma remove_aborts_on_failed_move_witness :
  exec (do_remove T0 ([pa] ++ pb :: [pc])) s_locked (Ok (RespErr "OSError"))
    (if decide (pb ∈ unreadable s_locked_a) then s_locked_a
     else set_files (<[trash_destination T0 (files s_locked_a) pb := Raw "b"]>
                       (files s_locked_a)) s_locked_a).
Proof.
  apply (remove_aborts_on_failed_move T0 s_locked [pa] [pc] pb 1 s_locked_a (Raw "b")).
  - eexists. vm_compute. reflexivity.
  - vm_compute. reflexivity.
  - apply (bool_decide_unpack _). vm_compute. reflexivity.
Defined.

(** [b.jpg] cannot be removed from [/photos]: [/remove a.jpg b.jpg c.jpg]
    answers with an error, [a.jpg] stays moved, [b.jpg] stays in place
    with a copy at [TRASH_DIR/b.jpg] that no manifest entry records,
    [c.jpg] is not processed and no manifest is written. *)

Lemma remove_stops_at_failed_move :
  exists s', exec (do_remove T0 [pa; pb; pc]) s_locked (Ok (RespErr "OSError")) s' /\
    files s' !! (T0, "a.jpg") = Some (Raw "a") /\
    files s' !! pb = Some (Raw "b") /\
    files s' !! (T0, "b.jpg") = Some (Raw "b") /\
    files s' !! pc = Some (Raw "c") /\
    manifest s' = [(pa, (T0, "a.jpg"))] /\
    files s' !! manifest_path T0 = None.
Proof.
  eexists. split; [eexists; vm_compute; reflexivity|].
  repeat split; vm_compute; reflexivity.
Qed.

(** C5 (code defect).  Removing a user file named [manifest.json]
    places it at the manifest's own path before the manifest is written:
    in the step right after that move, the on-disk manifest lists a move
    that never happened, and that file is still in place. *)

Lemma remove_manifest_named_file_fakes_manifest :
  exists tr r s', do_remove T0 [notes] s_fake = (tr, r, s') /\
    exists st, st ∈ tr /\
      files st !! manifest_path T0 = Some (Json [fake_entry]) /\
      (fake_entry ∉ moves st) /\
      files st !! fake_entry.1 = Some (Raw "x").
Proof.
  eexists _, _, _. split; [vm_compute; reflexivity|].
  eexists. split; [apply list_elem_of_In; right; left; reflexivity|].
  split; [vm_compute; reflexivity|]. split; [|vm_compute; reflexivity].
  apply (bool_decide_unpack _). vm_compute. reflexivity.
Qed.

(** C7.  On a fresh start, two different existing files with the same
    name [n] (other than [manifest.json]) are both moved: the first to
    [TRASH_DIR/n], the second to [TRASH_DIR/{stem}_1{suffix}], a different
    path; each quarantine path holds its own file, and [/undo] gives back
    both files at their original paths. *)

Theorem remove_same_name_suffix (T : string) (s0 : state) (p1 p2 : path) (n : string) :
  fresh_start T s0 -> p1 <> p2 -> p1.2 = n -> p2.2 = n -> n <> "manifest.json" ->
  is_Some (files s0 !! p1) -> is_Some (files s0 !! p2) ->
  exists s1 s2,
    exec (do_remove T [p1; p2]) s0 (Ok (RespOk 2)) s1 /\
    manifest s1 = [(p1, (T, n)); (p2, (T, path_stem n +:+ "_1" +:+ path_suffix n))] /\
    path_stem n +:+ "_1" +:+ path_suffix n <> n /\
    files s1 !! (T, n) = files s0 !! p1 /\
    files s1 !! (T, path_stem n +:+ "_1" +:+ path_suffix n) = files s0 !! p2 /\
    exec (do_undo T) s1 (Ok (RespOk 2)) s2 /\ files s2 = files s0.
Proof.
  intros Hfresh Hne Hn1 Hn2 Hname [c1 Hc1] [c2 Hc2].
  destruct (fresh_start_facts T s0 Hfresh) as (HT & Hdirs & Hm & Hl).
  set (n' := path_stem n +:+ "_1" +:+ path_suffix n).
  assert (Hcand : candidate T (path_stem n) (path_suffix n) 1 = (T, n')) by apply candidate_1_eq.
  assert (Hn'n : n' <> n).
  { intros Heq. apply (candidate_1_ne T n). by rewrite Hcand, Heq. }
  assert (Hp1T : p1.1 <> T) by (intros Hx; rewrite HT in Hc1 by done; discriminate).
  assert (Hp2T : p2.1 <> T) by (intros Hx; rewrite HT in Hc2 by done; discriminate).
  destruct (remove_undo_roundtrip T s0 [p1; p2] HT Hm Hl Hdirs) as (s1 & s2 & Hrem & Hund & Hf & _ & _).
  { repeat constructor; [|set_solver]. intros Hin.
    apply list_elem_of_singleton in Hin. done. }
  { intros p Hp. apply elem_of_cons in Hp as [->|Hp];
      [|apply list_elem_of_singleton in Hp as ->]; split; eauto; congruence. }
  set (sA := set_dirs ({[T]} ∪ dirs s0) s0).
  assert (Hd1 : trash_destination T (files sA) p1 = (T, n)).
  { unfold trash_destination. rewrite Hn1, decide_False; [done|].
    simpl. rewrite HT by done. intros [? ?]; discriminate. }
  set (sB := set_manifest (dict_set (manifest sA) p1 (T, n))
               (set_moves (moves sA ++ [(p1, (T, n))])
                  (set_files (<[(T, n) := c1]> (delete p1 (files sA))) sA))).
  assert (Hd2 : trash_destination T (files sB) p2 = (T, n')).
  { unfold trash_destination. rewrite Hn2, decide_True.
    2:{ simpl. rewrite lookup_insert_eq. eauto. }
    rewrite probe_S. rewrite Hcand, decide_False; [done|].
    simpl. rewrite lookup_insert_ne by congruence.
    rewrite lookup_delete_ne by (intros Heq; apply Hp1T; by rewrite Heq).
    rewrite HT by done. intros [? ?]; discriminate. }
  set (sC := set_manifest (dict_set (manifest sB) p2 (T, n'))
               (set_moves (moves sB ++ [(p2, (T, n'))])
                  (set_files (<[(T, n') := c2]> (delete p2 (files sB))) sB))).
  set (mp := manifest_path T).
  set (sD0 := set_files (<[mp := Raw ""]> (files sC)) sC).
  set (sD := set_files (<[mp := Json (manifest sD0)]> (files sD0)) sD0).
  assert (Hex : exec (do_remove T [p1; p2]) s0 (Ok (RespOk 2)) sD).
  { apply exec_try_ok.
    eapply exec_bind_ok; [apply exec_step|]. fold sA.
    eapply exec_bind_ok.
    { eapply remove_loop_cons; [exact Hc1|simpl; rewrite Hl; set_solver|simpl; set_solver|].
      cbv zeta. rewrite Hd1. fold sB.
      eapply remove_loop_cons.
      - simpl. rewrite lookup_insert_ne by (intros Heq; apply Hp2T; by rewrite <-Heq).
        rewrite lookup_delete_ne by done. exact Hc2.
      - simpl. rewrite Hl. set_solver.
      - simpl. set_solver.
      - cbv zeta. rewrite Hd2. fold sC. apply exec_ret. }
    eapply exec_bind_ok.
    { exists [sD0]. unfold open_w. rewrite decide_True; [reflexivity|]. simpl. set_solver. }
    eapply exec_bind_ok; [apply exec_step|]. apply exec_ret. }
  destruct (exec_det _ _ _ _ _ _ Hrem Hex) as [_ ->].
  assert (HmpN : (T, n) <> mp) by (intros [= E]; done).
  assert (HmpN' : (T, n') <> mp) by (rewrite <-Hcand; apply candidate_not_manifest).
  exists sD, s2. split; [done|]. split; [|split; [done|split; [|split; [|split; [done|done]]]]].
  - unfold sD, sD0, sC, sB. simpl. rewrite Hm. simpl.
    rewrite decide_False by congruence. reflexivity.
  - unfold sD, sD0, sC, sB. simpl.
    rewrite !lookup_insert_ne by congruence.
    rewrite lookup_delete_ne by (intros Heq; apply Hp2T; by rewrite Heq).
    rewrite lookup_insert_eq. by rewrite Hc1.
  - unfold sD, sD0, sC. simpl.
    rewrite !lookup_insert_ne by congruence. rewrite lookup_insert_eq. by rewrite Hc2.
Qed.

Lemma remove_same_name_suffix_witness :
  exists s1 s2,
    exec (do_remove T0 [p2023; p2024]) s_twins (Ok (RespOk 2)) s1 /\
    manifest s1 = [(p2023, (T0, "a.jpg"));
                   (p2024, (T0, path_stem "a.jpg" +:+ "_1" +:+ path_suffix "a.jpg"))] /\
    path_stem "a.jpg" +:+ "_1" +:+ path_suffix "a.jpg" <> "a.jpg" /\
    files s1 !! (T0, "a.jpg") = files s_twins !! p2023 /\
    files s1 !! (T0, path_stem "a.jpg" +:+ "_1" +:+ path_suffix "a.jpg") =
      files s_twins !! p2024 /\
    exec (do_undo T0) s1 (Ok (RespOk 2)) s2 /\ files s2 = files s_twins.
Proof.
  apply (remove_same_name_suffix T0 s_twins p2023 p2024 "a.jpg").
  - apply (bool_decide_unpack _). vm_compute. reflexivity.
  - apply (bool_decide_unpack _). vm_compute. reflexivity.
  - reflexivity.
  - reflexivity.
  - apply (bool_decide_unpack _). vm_compute. reflexivity.
  - vm_compute. eauto.
  - vm_compute. eauto.
Defined.

(** The second [a.jpg] goes to [a_1.jpg], with an underscore. *)

Lemma remove_same_name_underscore :
  exists s', exec (do_remove T0 [p2023; p2024]) s_twins (Ok (RespOk 2)) s' /\
    manifest s' = [(p2023, (T0, "a.jpg")); (p2024, (T0, "a_1.jpg"))].
Proof. eexists. split; [eexists; vm_compute; reflexivity|]. vm_compute. reflexivity. Qed.

(** C8.  An empty request is not rejected: [/remove] still creates the
    quarantine directory, writes [manifest.json] with the current manifest
    and answers success with a count of 0. *)

Theorem remove_empty_request (T : string) (s : state) :
  exists s', exec (do_remove T []) s (Ok (RespOk 0)) s' /\
    dirs s' = {[T]} ∪ dirs s /\
    files s' = <[manifest_path T := Json (manifest s)]> (files s) /\
    manifest s' = manifest s.
Proof.
  set (sA := set_dirs ({[T]} ∪ dirs s) s).
  set (sB := set_files (<[manifest_path T := Raw ""]> (files sA)) sA).
  exists (set_files (<[manifest_path T := Json (manifest sB)]> (files sB)) sB).
  split; [|split_and!; simpl; [done|by rewrite insert_insert_eq|done]].
  apply exec_try_ok.
  eapply exec_bind_ok; [apply exec_step|]. fold sA.
  eapply exec_bind_ok; [apply exec_ret|].
  eapply exec_bind_ok.
  { exists [sB]. unfold open_w. rewrite decide_True; [reflexivity|]. simpl. set_solver. }
  eapply exec_bind_ok; [apply exec_step|]. apply exec_ret.
Qed.

(** On a tree with no quarantine directory, an empty request creates it
    and writes an empty manifest. *)

Lemma remove_empty_request_writes :
  exists s', exec (do_remove T0 []) s_plain (Ok (RespOk 0)) s' /\
    (T0 ∉ dirs s_plain) /\ T0 ∈ dirs s' /\
    files s_plain !! manifest_path T0 = None /\
    files s' !! manifest_path T0 = Some (Json []).
Proof.
  eexists. split; [eexists; vm_compute; reflexivity|].
  split; [apply (bool_decide_unpack _); vm_compute; reflexivity|].
  split; [apply (bool_decide_unpack _); vm_compute; reflexivity|].
  split; vm_compute; reflexivity.
Qed.

(** C10.  Along any sequence of [/remove] batches whose paths lie
    outside the quarantine directory, with any other changes that leave the
    quarantine directory and the manifest alone, the manifest stays
    injective and each of its quarantine paths holds a file. *)

Theorem remove_session_injective (T : string) (s s' : state) :
  manifest_injective T s -> session T s s' -> manifest_injective T s'.
Proof.
  intros Hs Hsess. induction Hsess as [s|req r s s1 s2 Hreq Hx _ IH|s s1 s2 Hm Hf _ IH].
  - done.
  - apply IH. eapply do_remove_preserves; [|exact Hs|exact Hx].
    intros p Hp. rewrite Forall_forall in Hreq. by apply Hreq.
  - apply IH. destruct Hs as [Hnd Hents]. unfold manifest_injective. rewrite Hm. split; [done|].
    intros p q Hin. destruct (Hents p q Hin) as [HqT Hocc]. by rewrite Hf.
Qed.

Lemma remove_session_injective_witness : manifest_injective T0 s_twins_after.
Proof.
  apply (remove_session_injective T0 s_twins s_twins_after).
  - apply (bool_decide_unpack _). vm_compute. reflexivity.
  - eapply (session_remove T0 [p2023]); [|apply exec_run|].
    + apply (bool_decide_unpack _). vm_compute. reflexivity.
    + eapply (session_remove T0 [p2024]); [|apply exec_run|apply session_nil].
      apply (bool_decide_unpack _). vm_compute. reflexivity.
Defined.

(** A batch whose path lies inside the quarantine directory moves a
    quarantined file to a new name without updating the entry that points
    to it; the next file of that name then gets the freed path, and two
    entries share one quarantine path. *)

Lemma quarantine_input_breaks_injectivity :
  exists s1 s2 s3,
    exec (do_remove T0 [p2023]) s_twins (Ok (RespOk 1)) s1 /\
    exec (do_remove T0 [(T0, "a.jpg")]) s1 (Ok (RespOk 1)) s2 /\
    exec (do_remove T0 [p2024]) s2 (Ok (RespOk 1)) s3 /\
    manifest s3 = [(p2023, (T0, "a.jpg")); ((T0, "a.jpg"), (T0, "a_1.jpg"));
                   (p2024, (T0, "a.jpg"))] /\
    ~ NoDup (map snd (manifest s3)).
Proof.
  eexists _, _, _.
  split; [eexists; vm_compute; reflexivity|].
  split; [eexists; vm_compute; reflexivity|].
  split; [eexists; vm_compute; reflexivity|].
  split; [vm_compute; reflexivity|].
  apply (bool_decide_unpack _). vm_compute. reflexivity.
Qed.

End TrashFacts.

(* ------------------------------------------------------------------ *)
(** ** Properties of the copies and of the manifest on disk *)

Module TrashSaveFacts.
Import Trash TrashSpec TrashFacts TrashSave.

Lemma shutil_copy2_ok src dst s r s' :
  exec (shutil_copy2 src dst) s r s' -> r = Ok tt ->
  exists c, files s !! src = Some c /\ (src ∉ unreadable s) /\ dst.1 ∈ dirs s /\
    s' = set_files (<[dst := c]> (files s)) s.
Proof.
  intros [tr H] ->. unfold shutil_copy2 in H. cbv beta in H.
  destruct (files s !! src) as [c|] eqn:E; [|unfold raise in H; simplify_eq].
  repeat case_decide; unfold raise, step in H; simplify_eq. eauto.
Qed.

Lemma shutil_copy2_exc src dst s e s' :
  exec (shutil_copy2 src dst) s (Exc e) s' -> s' = s /\
    (files s !! src = None -> e = "FileNotFoundError").
Proof.
  intros [tr H]. unfold shutil_copy2 in H. cbv beta in H.
  destruct (files s !! src) as [c|] eqn:E; [|unfold raise in H; simplify_eq; done].
  repeat case_decide; unfold raise, step in H; simplify_eq; done.
Qed.

Lemma shutil_copy2_run src dst s c :
  files s !! src = Some c -> src ∉ unreadable s -> dst.1 ∈ dirs s ->
  exec (shutil_copy2 src dst) s (Ok tt) (set_files (<[dst := c]> (files s)) s).
Proof.
  intros Hc Hl Hd. exists [set_files (<[dst := c]> (files s)) s].
  unfold shutil_copy2. rewrite Hc, decide_False, decide_True by done. done.
Qed.

Lemma copies_nil OUT base : copies OUT base base [] [].
Proof. split; [constructor|]. split; [constructor|]. split; [constructor|].
  split; [constructor|done]. Qed.

Lemma copies_subseteq OUT base fs srcs ds :
  copies OUT base fs srcs ds -> base ⊆ fs.
Proof.
  intros (_ & Hds & _ & _ & Hrest). apply map_subseteq_spec. intros x c Hx.
  rewrite Hrest; [done|]. intros Hin. rewrite Forall_forall in Hds.
  destruct (Hds x Hin) as [_ Hn]. congruence.
Qed.

Lemma copies_outside OUT base fs srcs ds x :
  copies OUT base fs srcs ds -> x.1 <> OUT -> fs !! x = base !! x.
Proof.
  intros (_ & Hds & _ & _ & Hrest) Hx. apply Hrest. intros Hin.
  rewrite Forall_forall in Hds. destruct (Hds x Hin) as [? _]. done.
Qed.

Lemma Forall2_insert_fresh (base fs : gmap path content) d c srcs ds :
  d ∉ ds -> Forall2 (fun p e => fs !! e = base !! p) srcs ds ->
  Forall2 (fun p e => <[d := c]> fs !! e = base !! p) srcs ds.
Proof.
  intros Hd HF. induction HF as [|p e srcs ds He HF IH]; constructor.
  - rewrite lookup_insert_ne; [done|]. intros ->. apply Hd. apply elem_of_cons. by left.
  - apply IH. intros Hin. apply Hd. apply elem_of_cons. by right.
Qed.

(** One copy to a free path of [OUT] extends [copies]. *)
Lemma copies_snoc OUT base fs srcs ds p d c :
  copies OUT base fs srcs ds -> base !! p = Some c ->
  fs !! d = None -> d.1 = OUT ->
  copies OUT base (<[d := c]> fs) (srcs ++ [p]) (ds ++ [d]).
Proof.
  intros (Hnd & Hds & Hsrc & Hf2 & Hrest) Hp Hd HdO.
  assert (Hdn : d ∉ ds).
  { intros Hin. destruct (list_elem_of_lookup_1 _ _ Hin) as [i Hi].
    destruct (Forall2_lookup_r _ _ _ _ _ Hf2 Hi) as (q & Hq & Hfq).
    rewrite Forall_forall in Hsrc.
    assert (Hqs : is_Some (base !! q)) by (apply Hsrc; by eapply list_elem_of_lookup_2).
    rewrite <-Hfq, Hd in Hqs. by destruct Hqs. }
  split; [|split; [|split; [|split]]].
  - apply NoDup_app. split; [done|]. split; [|apply NoDup_singleton].
    intros x Hx ->%list_elem_of_singleton. contradiction.
  - apply Forall_app. split; [done|]. constructor; [|constructor].
    split; [done|]. rewrite <-Hrest by done. done.
  - apply Forall_app. split; [done|]. constructor; [by eexists|constructor].
  - apply Forall2_app; [|constructor; [by rewrite lookup_insert_eq|constructor]].
    by apply Forall2_insert_fresh.
  - intros x Hx. rewrite elem_of_app, list_elem_of_singleton in Hx.
    rewrite lookup_insert_ne by naive_solver. apply Hrest. naive_solver.
Qed.

Lemma set_files_twice (fs1 fs2 : gmap path content) s :
  set_files fs2 (set_files fs1 s) = set_files fs2 s.
Proof. by destruct s. Qed.

Lemma set_files_same s : set_files (files s) s = s.
Proof. by destruct s. Qed.

Lemma save_loop_spec (OUT : string) (base : gmap path content) (req : list path) :
  forall copied s r s' srcs ds,
  Forall (fun p : path => p.1 <> OUT /\ p ∉ unreadable s) req ->
  OUT ∈ dirs s ->
  copies OUT base (files s) srcs ds ->
  exec (save_loop OUT req copied) s r s' ->
  r = Ok (copied + length (filter (fun p => is_Some (base !! p)) req)) /\
  exists ds', copies OUT base (files s') (srcs ++ filter (fun p => is_Some (base !! p)) req)
                (ds ++ ds') /\
    s' = set_files (files s') s.
Proof.
  induction req as [|p rest IH]; intros copied s r s' srcs ds Hreq Hdir Hc Hx; simpl in Hx.
  - apply exec_ret_inv in Hx as [-> ->]. simpl. split; [f_equal; lia|].
    exists []. rewrite !app_nil_r. split; [done|]. by rewrite set_files_same.
  - apply Forall_cons in Hreq as [[HpO Hpl] Hreq].
    assert (Hp : files s !! p = base !! p) by (eapply copies_outside; eauto).
    unfold path_exists in Hx.
    apply exec_bind_inv in Hx as [(e & s1 & He & Hk)|(err & _ & He)];
      apply exec_gets_inv in He as [He ->]; [|discriminate].
    injection He as ->. cbv beta in Hk. rewrite Hp in Hk. rewrite filter_cons.
    destruct (decide (is_Some (base !! p))) as [[c Hpc]|Hn].
    + rewrite bool_decide_eq_true_2 in Hk by (by eexists).
      apply exec_bind_inv in Hk as [(dest & s1 & Hd & Hk)|(err & _ & Hd)];
        apply exec_gets_inv in Hd as [Hd ->]; [injection Hd as Hdest|discriminate].
      assert (Hfree : files s !! dest = None) by (rewrite Hdest; apply trash_destination_free).
      assert (HdO : dest.1 = OUT) by (rewrite Hdest; apply trash_destination_dir).
      assert (Hrun : exec (shutil_copy2 p dest) s (Ok tt)
                       (set_files (<[dest := c]> (files s)) s))
        by (apply shutil_copy2_run; [congruence|done|congruence]).
      apply exec_bind_inv in Hk as [(u & s2 & Hcp & Hk)|(err & -> & Hcp)].
      * destruct (exec_det _ _ _ _ _ _ Hcp Hrun) as [_ ->].
        edestruct (IH (S copied) (set_files (<[dest := c]> (files s)) s))
          as (Hr & ds' & Hc2 & Hs'); [exact Hreq|exact Hdir| |exact Hk|].
        { by apply copies_snoc. }
        split; [rewrite Hr; simpl; f_equal; lia|].
        exists (dest :: ds'). rewrite <-!app_assoc in Hc2. split; [exact Hc2|].
        rewrite Hs' at 1. by rewrite set_files_twice.
      * destruct (exec_det _ _ _ _ _ _ Hcp Hrun) as [Habs _]. discriminate.
    + rewrite bool_decide_eq_false_2 in Hk by done.
      by apply (IH copied s r s' srcs ds).
Qed.

Lemma copy_loop_spec (OUT : string) (base : gmap path content) (picks : list path) :
  forall s r s' srcs ds,
  Forall (fun p : path => p.1 <> OUT /\ p ∉ unreadable s) picks ->
  OUT ∈ dirs s ->
  copies OUT base (files s) srcs ds ->
  exec (copy_loop OUT picks) s r s' ->
  s' = set_files (files s') s /\
  (exists srcs' ds', copies OUT base (files s') (srcs ++ srcs') (ds ++ ds')) /\
  (Forall (fun p => is_Some (base !! p)) picks ->
     r = Ok tt /\ exists ds', copies OUT base (files s') (srcs ++ picks) (ds ++ ds')) /\
  (~ Forall (fun p => is_Some (base !! p)) picks -> r = Exc "FileNotFoundError").
Proof.
  induction picks as [|p rest IH]; intros s r s' srcs ds Hreq Hdir Hc Hx; simpl in Hx.
  - apply exec_ret_inv in Hx as [-> ->]. rewrite set_files_same.
    split; [done|]. split; [exists [], []; by rewrite !app_nil_r|].
    split; [intros _; split; [done|]; exists []; by rewrite !app_nil_r|].
    intros Hn. exfalso. apply Hn. constructor.
  - apply Forall_cons in Hreq as [[HpO Hpl] Hreq].
    assert (Hp : files s !! p = base !! p) by (eapply copies_outside; eauto).
    apply exec_bind_inv in Hx as [(dest & s1 & Hd & Hk)|(err & _ & Hd)];
      apply exec_gets_inv in Hd as [Hd ->]; [injection Hd as Hdest|discriminate].
    assert (Hfree : files s !! dest = None) by (rewrite Hdest; apply trash_destination_free).
    assert (HdO : dest.1 = OUT) by (rewrite Hdest; apply trash_destination_dir).
    destruct (base !! p) as [c|] eqn:Hc'.
    + assert (Hrun : exec (shutil_copy2 p dest) s (Ok tt)
                       (set_files (<[dest := c]> (files s)) s))
        by (apply shutil_copy2_run; [congruence|done|congruence]).
      apply exec_bind_inv in Hk as [(u & s2 & Hcp & Hk)|(err & -> & Hcp)].
      * destruct (exec_det _ _ _ _ _ _ Hcp Hrun) as [_ ->].
        edestruct (IH (set_files (<[dest := c]> (files s)) s))
          as (Hs' & (srcs' & ds' & Hc2) & Hok & Hfail);
          [exact Hreq|exact Hdir|by apply copies_snoc|exact Hk|].
        rewrite <-!app_assoc in Hc2. setoid_rewrite <-app_assoc in Hok. simpl in Hc2, Hok.
        split; [rewrite Hs' at 1; by rewrite set_files_twice|].
        split; [by exists (p :: srcs'), (dest :: ds')|].
        split.
        -- intros Hall. apply Forall_cons in Hall as [_ Hall].
           destruct (Hok Hall) as [-> (ds'' & Hc3)]. split; [done|].
           by exists (dest :: ds'').
        -- intros Hn. apply Hfail. intros Hall. apply Hn. constructor; [by eexists|done].
      * destruct (exec_det _ _ _ _ _ _ Hcp Hrun) as [Habs _]. discriminate.
    + apply exec_bind_inv in Hk as [(u & s2 & Hcp & Hk)|(err & -> & Hcp)].
      * destruct u. apply shutil_copy2_ok in Hcp as (c & Hcc & _); [|done]. congruence.
      * apply shutil_copy2_exc in Hcp as [-> He]. rewrite He by congruence.
        split; [by rewrite set_files_same|].
        split; [exists [], []; by rewrite !app_nil_r|].
        split; [|done]. intros Hall. apply Forall_cons in Hall as [[? Hs] _]. congruence.
Qed.

Lemma shutil_copy2_free_grows p d s r s' :
  files s !! d = None -> exec (shutil_copy2 p d) s r s' ->
  files s ⊆ files s' /\ s' = set_files (files s') s.
Proof.
  intros Hd Hx. destruct r as [[]|e].
  - apply shutil_copy2_ok in Hx as (c & _ & _ & _ & ->); [|done]. simpl.
    split; [by apply insert_subseteq|by destruct s].
  - apply shutil_copy2_exc in Hx as [-> _]. by rewrite set_files_same.
Qed.

Lemma save_loop_grows (OUT : string) (req : list path) :
  forall copied s r s', exec (save_loop OUT req copied) s r s' ->
  files s ⊆ files s' /\ s' = set_files (files s') s.
Proof.
  induction req as [|p rest IH]; intros copied s r s' Hx; simpl in Hx.
  - apply exec_ret_inv in Hx as [_ ->]. by rewrite set_files_same.
  - unfold path_exists in Hx.
    apply exec_bind_inv in Hx as [(e & s1 & He & Hk)|(err & _ & He)];
      apply exec_gets_inv in He as [He ->]; [|discriminate].
    destruct e; [|by eapply IH].
    apply exec_bind_inv in Hk as [(dest & s1 & Hd & Hk)|(err & _ & Hd)];
      apply exec_gets_inv in Hd as [Hd ->]; [injection Hd as Hdest|discriminate].
    assert (Hfree : files s !! dest = None) by (rewrite Hdest; apply trash_destination_free).
    apply exec_bind_inv in Hk as [(u & s2 & Hcp & Hk)|(err & -> & Hcp)].
    + apply shutil_copy2_free_grows in Hcp as [Hg1 Hs2]; [|done].
      apply IH in Hk as [Hg2 Hs']. split; [by trans (files s2)|].
      transitivity (set_files (files s') s2); [exact Hs'|].
      rewrite Hs2 at 1. by rewrite set_files_twice.
    + by apply shutil_copy2_free_grows in Hcp.
Qed.

Lemma mkdir_inv d s r s' :
  exec (mkdir d) s r s' -> r = Ok tt /\ s' = set_dirs ({[d]} ∪ dirs s) s.
Proof. unfold mkdir. intros H. by apply exec_step_inv in H. Qed.

(** X12.  [/save] never removes or changes an existing file: the files
    before are a sub-map of the files after, and besides the files it only
    creates [OUTPUT_DIR] (the manifest and the quarantine stay as they
    are). *)
Theorem save_never_overwrites (OUT : string) (req : list path) s r s' :
  exec (do_save OUT req) s r s' ->
  files s ⊆ files s' /\ s' = set_files (files s') (set_dirs ({[OUT]} ∪ dirs s) s).
Proof.
  intros Hx. unfold do_save in Hx.
  apply exec_try_inv in Hx as [(a & _ & Hb)|(e & s1 & Hb & Hh)].
  - apply exec_bind_inv in Hb as [(u & s1 & Hm & Hb)|(e & He & _)]; [|discriminate].
    apply mkdir_inv in Hm as [_ ->].
    apply exec_bind_inv in Hb as [(n & s2 & Hl & Hb)|(e & He & _)]; [|discriminate].
    apply exec_ret_inv in Hb as [_ ->].
    apply save_loop_grows in Hl as [Hg Hs']. split; [exact Hg|].
    rewrite Hs' at 1. by destruct s.
  - apply exec_ret_inv in Hh as [_ ->].
    apply exec_bind_inv in Hb as [(u & s2 & Hm & Hb)|(e' & He & Hm)].
    + apply mkdir_inv in Hm as [_ ->].
      apply exec_bind_inv in Hb as [(n & s3 & Hl & Hb)|(e' & He & Hl)].
      * apply exec_ret_inv in Hb as [Habs _]. discriminate.
      * apply save_loop_grows in Hl as [Hg Hs']. split; [exact Hg|].
        rewrite Hs' at 1. by destruct s.
    + apply mkdir_inv in Hm as [Habs _]. discriminate.
Qed.

(** X13.  [/save] with requested paths outside [OUTPUT_DIR] that can be
    read: it answers with the number of requested paths that exist, and
    copies each of them, in order, to a distinct path of [OUTPUT_DIR] that
    was free, leaving every other file as it was. *)
Theorem save_copies (OUT : string) (req : list path) s r s' :
  Forall (fun p : path => p.1 <> OUT /\ p ∉ unreadable s) req ->
  exec (do_save OUT req) s r s' ->
  r = Ok (RespOk (length (filter (fun p => is_Some (files s !! p)) req))) /\
  exists ds, copies OUT (files s) (files s') (filter (fun p => is_Some (files s !! p)) req) ds /\
    s' = set_files (files s') (set_dirs ({[OUT]} ∪ dirs s) s).
Proof.
  intros Hreq Hx. unfold do_save in Hx.
  assert (Hc0 : copies OUT (files s) (files (set_dirs ({[OUT]} ∪ dirs s) s)) [] [])
    by (destruct s; apply copies_nil).
  assert (Hd0 : OUT ∈ dirs (set_dirs ({[OUT]} ∪ dirs s) s)) by (destruct s; simpl; set_solver).
  assert (Hr0 : Forall (fun p : path => p.1 <> OUT /\ p ∉ unreadable (set_dirs ({[OUT]} ∪ dirs s) s)) req)
    by (destruct s; exact Hreq).
  apply exec_try_inv in Hx as [(a & -> & Hb)|(e & s1 & Hb & Hh)].
  - apply exec_bind_inv in Hb as [(u & s1 & Hm & Hb)|(e & He & _)]; [|discriminate].
    apply mkdir_inv in Hm as [_ ->].
    apply exec_bind_inv in Hb as [(n & s2 & Hl & Hb)|(e & He & _)]; [|discriminate].
    apply exec_ret_inv in Hb as [Ha ->].
    destruct (save_loop_spec _ _ _ _ _ _ _ _ _ Hr0 Hd0 Hc0 Hl) as (Hn & ds & Hc & Hs').
    injection Hn as ->. injection Ha as <-. split; [done|].
    exists ds. split; [exact Hc|]. exact Hs'.
  - exfalso.
    apply exec_bind_inv in Hb as [(u & s2 & Hm & Hb)|(e' & He & Hm)].
    + apply mkdir_inv in Hm as [_ ->].
      apply exec_bind_inv in Hb as [(n & s3 & Hl & Hb)|(e' & He & Hl)].
      * apply exec_ret_inv in Hb as [Habs _]. discriminate.
      * destruct (save_loop_spec _ _ _ _ _ _ _ _ _ Hr0 Hd0 Hc0 Hl) as (Hn & _).
        discriminate.
    + apply mkdir_inv in Hm as [Habs _]. discriminate.
Qed.

(** X14.  The copy stage of [main], for picks outside the output folder
    that can be read: existing files are never changed; when every pick
    exists each one is copied to a distinct free path of the output folder;
    when one is missing, [shutil.copy2] raises [FileNotFoundError], which
    nothing catches. *)
Theorem main_copy_stage (output : string) (picks : list path) s r s' :
  Forall (fun p : path => p.1 <> output /\ p ∉ unreadable s) picks ->
  exec (copy_unique output picks) s r s' ->
  files s ⊆ files s' /\
  s' = set_files (files s') (set_dirs ({[output]} ∪ dirs s) s) /\
  (Forall (fun p => is_Some (files s !! p)) picks ->
     r = Ok tt /\ exists ds, copies output (files s) (files s') picks ds) /\
  (~ Forall (fun p => is_Some (files s !! p)) picks -> r = Exc "FileNotFoundError").
Proof.
  intros Hreq Hx. unfold copy_unique in Hx.
  assert (Hc0 : copies output (files s) (files (set_dirs ({[output]} ∪ dirs s) s)) [] [])
    by (destruct s; apply copies_nil).
  assert (Hd0 : output ∈ dirs (set_dirs ({[output]} ∪ dirs s) s)) by (destruct s; simpl; set_solver).
  assert (Hr0 : Forall (fun p : path => p.1 <> output /\
                  p ∉ unreadable (set_dirs ({[output]} ∪ dirs s) s)) picks)
    by (destruct s; exact Hreq).
  apply exec_bind_inv in Hx as [(u & s1 & Hm & Hb)|(e & He & Hm)].
  - apply mkdir_inv in Hm as [_ ->].
    destruct (copy_loop_spec _ _ _ _ _ _ _ _ Hr0 Hd0 Hc0 Hb)
      as (Hs' & (srcs' & ds' & Hc) & Hok & Hfail).
    split; [apply copies_subseteq in Hc; by destruct s|].
    split; [rewrite Hs' at 1; by destruct s|].
    split; [exact Hok|exact Hfail].
  - apply mkdir_inv in Hm as [Habs _]. discriminate.
Qed.

(** X15.  After a successful [/remove], the manifest that [main] of the
    review server would load at the next start is the in-memory manifest. *)
Theorem remove_writes_manifest (T : string) (parse_json : string -> option manifest_t)
    (req : list path) s n s' :
  exec (do_remove T req) s (Ok (RespOk n)) s' ->
  load_manifest T parse_json (files s') = Ok (manifest s').
Proof.
  intros Hx. unfold do_remove in Hx.
  apply exec_try_inv in Hx as [(a & Ha & Hb)|(e & s1 & Hb & Hh)].
  - injection Ha as <-.
    apply exec_bind_inv in Hb as [(u & s1 & Hm & Hb)|(e & He & _)]; [|discriminate].
    apply exec_bind_inv in Hb as [(m & s2 & Hl & Hb)|(e & He & _)]; [|discriminate].
    apply exec_bind_inv in Hb as [(u2 & s3 & Ho & Hb)|(e & He & _)]; [|discriminate].
    apply exec_bind_inv in Hb as [(u3 & s4 & Hj & Hb)|(e & He & _)]; [|discriminate].
    apply exec_ret_inv in Hb as [_ ->]. unfold json_dump in Hj.
    apply exec_step_inv in Hj as [_ ->].
    unfold load_manifest. destruct s3. simpl. by rewrite lookup_insert_eq.
  - apply exec_ret_inv in Hh as [Habs _]. discriminate.
Qed.

(** X16.  After a successful [/undo], the in-memory manifest is empty and
    the next start of the review server loads an empty manifest. *)
Theorem undo_removes_manifest (T : string) (parse_json : string -> option manifest_t)
    s n s' :
  exec (do_undo T) s (Ok (RespOk n)) s' ->
  manifest s' = [] /\ load_manifest T parse_json (files s') = Ok [].
Proof.
  intros Hx. unfold do_undo in Hx.
  apply exec_try_inv in Hx as [(a & Ha & Hb)|(e & s1 & Hb & Hh)].
  - injection Ha as <-.
    apply exec_bind_inv in Hb as [(es & s1 & Hg & Hb)|(e & He & _)]; [|discriminate].
    apply exec_gets_inv in Hg as [_ ->].
    apply exec_bind_inv in Hb as [(m & s2 & Hl & Hb)|(e & He & _)]; [|discriminate].
    apply exec_bind_inv in Hb as [(u & s3 & Hc & Hb)|(e & He & _)]; [|discriminate].
    unfold manifest_clear in Hc. apply exec_step_inv in Hc as [_ ->].
    unfold path_exists in Hb.
    apply exec_bind_inv in Hb as [(ex & s4 & He & Hb)|(e & He & _)];
      [apply exec_gets_inv in He as [He ->]; injection He as ->|discriminate].
    assert (Hmp : files s' !! manifest_path T = None /\ manifest s' = []);
      [|destruct Hmp as [Hmp ->]; split; [done|]; unfold load_manifest; by rewrite Hmp].
    apply exec_bind_inv in Hb as [(u1 & s4 & Hu & Hb)|(e & He & _)]; [|discriminate].
    assert (H4 : files s4 !! manifest_path T = None /\ manifest s4 = []).
    { case_bool_decide as Hex.
      - destruct Hu as [tr Hu]. unfold unlink in Hu.
        case_decide; unfold raise, step in Hu; simplify_eq.
        destruct s2. simpl. by rewrite lookup_delete_eq.
      - apply exec_ret_inv in Hu as [_ ->]. destruct s2. simpl in *. split; [|done].
        by apply eq_None_not_Some. }
    apply exec_bind_inv in Hb as [(d & s5 & Hd & Hb)|(e & He & _)];
      [apply exec_gets_inv in Hd as [_ ->]|discriminate].
    apply exec_bind_inv in Hb as [(u' & s5 & Hr & Hb)|(e & He & _)].
    + apply exec_ret_inv in Hb as [_ ->]. destruct d.
      * unfold rmdir in Hr. apply exec_step_inv in Hr as [_ ->]. by destruct s4.
      * by apply exec_ret_inv in Hr as [_ ->].
    + discriminate.
  - apply exec_ret_inv in Hh as [Habs _]. discriminate.
Qed.

(** *** Witnesses *)

Import Samples.

Lemma save_never_overwrites_witness :
  exists r s', exec (do_save OUT0 [p2023; p2024; pgone]) s_twins r s' /\
    files s_twins ⊆ files s' /\
    s' = set_files (files s') (set_dirs ({[OUT0]} ∪ dirs s_twins) s_twins).
Proof.
  eexists _, _. split; [apply exec_run|]. eapply (save_never_overwrites OUT0).
  apply exec_run.
Defined.

Lemma save_copies_witness :
  exists r s', exec (do_save OUT0 [p2023; p2024; pgone]) s_twins r s' /\
  r = Ok (RespOk (length (filter (fun p => is_Some (files s_twins !! p)) [p2023; p2024; pgone]))) /\
  exists ds, copies OUT0 (files s_twins) (files s')
               (filter (fun p => is_Some (files s_twins !! p)) [p2023; p2024; pgone]) ds /\
    s' = set_files (files s') (set_dirs ({[OUT0]} ∪ dirs s_twins) s_twins).
Proof.
  eexists _, _. split; [apply exec_run|]. eapply (save_copies OUT0).
  - apply (bool_decide_unpack _). vm_compute. reflexivity.
  - apply exec_run.
Defined.

Lemma main_copy_stage_witness :
  exists r s', exec (copy_unique OUT0 [p2023; pgone; p2024]) s_twins r s' /\
  files s_twins ⊆ files s' /\
  s' = set_files (files s') (set_dirs ({[OUT0]} ∪ dirs s_twins) s_twins) /\
  (Forall (fun p => is_Some (files s_twins !! p)) [p2023; pgone; p2024] ->
     r = Ok tt /\ exists ds, copies OUT0 (files s_twins) (files s') [p2023; pgone; p2024] ds) /\
  (~ Forall (fun p => is_Some (files s_twins !! p)) [p2023; pgone; p2024] ->
     r = Exc "FileNotFoundError").
Proof.
  eexists _, _. split; [apply exec_run|]. eapply (main_copy_stage OUT0).
  - apply (bool_decide_unpack _). vm_compute. reflexivity.
  - apply exec_run.
Defined.

Lemma remove_writes_manifest_witness :
  exists s', exec (do_remove T0 [p2023; p2024]) s_twins (Ok (RespOk 2)) s' /\
    load_manifest T0 (fun _ => None) (files s') = Ok (manifest s').
Proof.
  eexists. split; [eexists; vm_compute; reflexivity|].
  eapply (remove_writes_manifest T0 (fun _ => None) [p2023; p2024] s_twins 2).
  eexists; vm_compute; reflexivity.
Defined.

Lemma undo_removes_manifest_witness :
  exists s', exec (do_undo T0) s_twins_after (Ok (RespOk 2)) s' /\
    manifest s' = [] /\ load_manifest T0 (fun _ => None) (files s') = Ok [].
Proof.
  eexists. split; [eexists; vm_compute; reflexivity|].
  eapply (undo_removes_manifest T0 (fun _ => None) s_twins_after 2).
  eexists; vm_compute; reflexivity.
Defined.

End TrashSaveFacts.
